(** * property-matchmaker: the cache, throttle and retry layer of
      [modelling/function_gemini.py]

    A shallow embedding of [PropertyMatchmaker._rate_limit] and
    [PropertyMatchmaker.search_properties] together with the properties
    of them that the specification states.

    Conventions of the embedding.
    - A Python [str] is a [string] holding its UTF-8 bytes, so that
      [str.encode()] is the identity on the bytes; a [str] that has
      no UTF-8 encoding (a lone surrogate) is outside the model.
      [str.lower] and [str.strip] are modelled on the ASCII range
      (the letters [A-Z] and the white space of [str.isspace] below
      code point 128); bytes above 127 pass through unchanged, so the
      model is that of Python on ASCII text.
    - Time is an integer number of clock ticks, [hz] ticks to the
      second, for an arbitrary positive resolution [hz]; what
      [time.time()] returns and what [time.sleep] consumes is measured
      in ticks.  Within a call, and in the sessions of [run], the
      clock never runs backwards; the sessions of [run_events] let
      the wall clock be set, back too, between two calls.
    - The LangChain agent, the clock and the scheduler are external:
      the object's [agent] field is what the agent's n-th invocation
      answers, and an environment [Env] fixes how much time passes at
      each primitive step.  The world keeps a trace of the agent
      invocations and of the sleeps.
    - Console output ([print]) is not modelled. *)

From Stdlib Require Import ZArith Lia List Ascii String Sorted.
From stdpp Require Import base gmap strings list fin_maps sorting.

Local Open Scope string_scope.
Local Open Scope Z_scope.

(** ** Strings *)

Module Str.

Definition code (c : ascii) : Z := Z.of_N (N_of_ascii c).

(** [str.isspace] on code points below 128. *)
Definition isspace (c : ascii) : bool :=
  let n := code c in
  ((9 <=? n) && (n <=? 13)) || ((28 <=? n) && (n <=? 32)).

Definition lower_char (c : ascii) : ascii :=
  let n := code c in
  if (65 <=? n) && (n <=? 90) then ascii_of_N (Z.to_N (n + 32)) else c.

(** [s.lower()] *)
Fixpoint lower (s : string) : string :=
  match s with
  | EmptyString => EmptyString
  | String c t => String (lower_char c) (lower t)
  end.

Fixpoint lstrip (s : string) : string :=
  match s with
  | EmptyString => EmptyString
  | String c t => if isspace c then lstrip t else s
  end.

(** Drops the trailing white space; [rstrip] of a string of white
    space only is empty. *)
Fixpoint rstrip (s : string) : string :=
  match s with
  | EmptyString => EmptyString
  | String c t =>
      match rstrip t with
      | EmptyString => if isspace c then EmptyString else String c EmptyString
      | t' => String c t'
      end
  end.

(** [s.strip()] *)
Definition strip (s : string) : string := rstrip (lstrip s).

(** [needle in hay] *)
Fixpoint contains (needle hay : string) : bool :=
  String.prefix needle hay ||
  match hay with
  | EmptyString => false
  | String _ t => contains needle t
  end.

(** [s.encode()]: the bytes of the string. *)
Fixpoint encode (s : string) : list Z :=
  match s with
  | EmptyString => []
  | String c t => code c :: encode t
  end.

(** ["a" * n] *)
Fixpoint rep (c : ascii) (n : nat) : string :=
  match n with
  | O => EmptyString
  | S k => String c (rep c k)
  end.

End Str.

(** ** MD5 (RFC 1321), as computed by [hashlib.md5] *)

Module MD5.

Definition wrap32 (x : Z) : Z := x mod 2 ^ 32.

Definition rotl32 (x s : Z) : Z :=
  wrap32 (Z.lor (Z.shiftl x s) (Z.shiftr x (32 - s))).

Definition not32 (x : Z) : Z := Z.lxor x 0xffffffff.

Definition shifts : list Z :=
  [7; 12; 17; 22; 7; 12; 17; 22; 7; 12; 17; 22; 7; 12; 17; 22;
   5; 9; 14; 20; 5; 9; 14; 20; 5; 9; 14; 20; 5; 9; 14; 20;
   4; 11; 16; 23; 4; 11; 16; 23; 4; 11; 16; 23; 4; 11; 16; 23;
   6; 10; 15; 21; 6; 10; 15; 21; 6; 10; 15; 21; 6; 10; 15; 21].

Definition K : list Z :=
  [0xd76aa478; 0xe8c7b756; 0x242070db; 0xc1bdceee;
   0xf57c0faf; 0x4787c62a; 0xa8304613; 0xfd469501;
   0x698098d8; 0x8b44f7af; 0xffff5bb1; 0x895cd7be;
   0x6b901122; 0xfd987193; 0xa679438e; 0x49b40821;
   0xf61e2562; 0xc040b340; 0x265e5a51; 0xe9b6c7aa;
   0xd62f105d; 0x02441453; 0xd8a1e681; 0xe7d3fbc8;
   0x21e1cde6; 0xc33707d6; 0xf4d50d87; 0x455a14ed;
   0xa9e3e905; 0xfcefa3f8; 0x676f02d9; 0x8d2a4c8a;
   0xfffa3942; 0x8771f681; 0x6d9d6122; 0xfde5380c;
   0xa4beea44; 0x4bdecfa9; 0xf6bb4b60; 0xbebfbc70;
   0x289b7ec6; 0xeaa127fa; 0xd4ef3085; 0x04881d05;
   0xd9d4d039; 0xe6db99e5; 0x1fa27cf8; 0xc4ac5665;
   0xf4292244; 0x432aff97; 0xab9423a7; 0xfc93a039;
   0x655b59c3; 0x8f0ccc92; 0xffeff47d; 0x85845dd1;
   0x6fa87e4f; 0xfe2ce6e0; 0xa3014314; 0x4e0811a1;
   0xf7537e82; 0xbd3af235; 0x2ad7d2bb; 0xeb86d391].

(** The four chaining words A, B, C, D. *)
Record state := State { sa : Z; sb : Z; sc : Z; sd : Z }.

Definition iv : state :=
  State 0x67452301 0xefcdab89 0x98badcfe 0x10325476.

Definition zeros (n : nat) : list Z := List.repeat 0 n.

(** Little-endian bytes of the low [8 * n] bits of [x]. *)
Fixpoint le_bytes (n : nat) (x : Z) : list Z :=
  match n with
  | O => []
  | S k => x mod 256 :: le_bytes k (x / 256)
  end.

(** Message, the byte 0x80, zeros up to 56 modulo 64, and the bit
    length as a 64-bit little-endian integer. *)
Definition pad (msg : list Z) : list Z :=
  let len := Z.of_nat (length msg) in
  msg ++ [0x80] ++ zeros (Z.to_nat ((55 - len) mod 64))
      ++ le_bytes 8 ((8 * len) mod 2 ^ 64).

Fixpoint le_word (bs : list Z) : Z :=
  match bs with
  | [] => 0
  | b :: t => b + 256 * le_word t
  end.

(** The [n] little-endian 32-bit words at the front of [bs]. *)
Fixpoint words (n : nat) (bs : list Z) : list Z :=
  match n with
  | O => []
  | S k => le_word (firstn 4 bs) :: words k (skipn 4 bs)
  end.

Definition round_fun (i : Z) (b c d : Z) : Z :=
  if i <? 16 then Z.lor (Z.land b c) (Z.land (not32 b) d)
  else if i <? 32 then Z.lor (Z.land d b) (Z.land (not32 d) c)
  else if i <? 48 then Z.lxor (Z.lxor b c) d
  else Z.lxor c (Z.lor b (not32 d)).

Definition msg_index (i : Z) : Z :=
  if i <? 16 then i
  else if i <? 32 then (5 * i + 1) mod 16
  else if i <? 48 then (3 * i + 5) mod 16
  else (7 * i) mod 16.

Definition step (m : list Z) (st : state) (i : nat) : state :=
  let iz := Z.of_nat i in
  let f := wrap32 (round_fun iz (sb st) (sc st) (sd st) + sa st
                   + nth i K 0 + nth (Z.to_nat (msg_index iz)) m 0) in
  State (sd st) (wrap32 (sb st + rotl32 f (nth i shifts 0))) (sb st) (sc st).

Definition compress (st : state) (block : list Z) : state :=
  let m := words 16 block in
  let r := fold_left (step m) (seq 0 64) st in
  State (wrap32 (sa st + sa r)) (wrap32 (sb st + sb r))
        (wrap32 (sc st + sc r)) (wrap32 (sd st + sd r)).

(** The first [n] blocks of 64 bytes, folded into the state. *)
Fixpoint blocks (n : nat) (st : state) (bs : list Z) : state :=
  match n with
  | O => st
  | S k => blocks k (compress st (firstn 64 bs)) (skipn 64 bs)
  end.

Definition md5 (msg : list Z) : state :=
  let p := pad msg in
  blocks (Nat.div (length p) 64) iv p.

(** [digest()]: sixteen bytes, each word little-endian. *)
Definition digest (st : state) : list Z :=
  le_bytes 4 (sa st) ++ le_bytes 4 (sb st)
    ++ le_bytes 4 (sc st) ++ le_bytes 4 (sd st).

Definition hex_digit (n : Z) : ascii :=
  ascii_of_N (Z.to_N (if n <? 10 then 48 + n else 87 + n)).

Fixpoint hex (bs : list Z) : string :=
  match bs with
  | [] => EmptyString
  | b :: t => String (hex_digit (b / 16)) (String (hex_digit (b mod 16)) (hex t))
  end.

(** [hashlib.md5(msg).hexdigest()] *)
Definition hexdigest (msg : list Z) : string := hex (digest (md5 msg)).

(** The four words are 32-bit words. *)
Definition in_range (st : state) : Prop :=
  (0 <= sa st < 2 ^ 32) /\ (0 <= sb st < 2 ^ 32)
  /\ (0 <= sc st < 2 ^ 32) /\ (0 <= sd st < 2 ^ 32).

(** The chaining words as one number of 128 bits. *)
Definition number (st : state) : Z :=
  sa st + 2 ^ 32 * (sb st + 2 ^ 32 * (sc st + 2 ^ 32 * sd st)).

End MD5.

(** [user_query.strip().lower()] *)
Definition normalize (user_query : string) : string :=
  Str.lower (Str.strip user_query).

(** [hashlib.md5(user_query.strip().lower().encode()).hexdigest()] *)
Definition cache_key (user_query : string) : string :=
  MD5.hexdigest (Str.encode (normalize user_query)).

(** The digest behind the key of a query, as a natural number. *)
Definition digest_code (user_query : string) : nat :=
  Z.to_nat (MD5.number (MD5.md5 (Str.encode (normalize user_query)))).

(** ** The world outside the object *)

(** What one [agent.invoke] call does: it returns the response
    dictionary or raises an exception with the given text. *)
Inductive outcome :=
| Returns (response : gmap string string)
| Raises (text : string).

(** The exceptions of the model, all subclasses of [Exception], with
    the argument [str(e)] prints. *)
Inductive exn :=
| IndexError (text : string)
| KeyError (text : string)
| ValueError (text : string)
| AgentError (text : string).

(** [str(e)]; a [KeyError] prints the [repr] of the missing key. *)
Definition str_exn (e : exn) : string :=
  match e with
  | IndexError t | ValueError t | AgentError t => t
  | KeyError k => "'" ++ k ++ "'"
  end.

Inductive result (A : Type) :=
| Ok (a : A)
| Raise (e : exn).
Arguments Ok {A} a.
Arguments Raise {A} e.

(** The clock resolution and the time that passes, beyond what is
    slept, at each primitive step ([time.time()], [time.sleep],
    [agent.invoke]). *)
Record Env := {
  hz : positive;
  lag : nat -> N;
}.

(** The clock, the number of primitive steps taken so far, and two
    traces: the agent invocations (issue time and prompt) and the
    durations passed to [time.sleep]. *)
Record World := {
  clock : Z;
  steps : nat;
  calls : list (Z * string);
  sleeps : list Z;
}.

Definition seconds (E : Env) (n : Z) : Z := n * Z.pos (hz E).

Definition elapse (E : Env) (w : World) : World :=
  {| clock := clock w + Z.of_N (lag E (steps w));
     steps := S (steps w);
     calls := calls w;
     sleeps := sleeps w |}.

(** The world after [time.sleep(secs)]: at least [secs] ticks pass. *)
Definition slept (E : Env) (secs : Z) (w : World) : World :=
  let w := elapse E w in
  {| clock := clock w + secs; steps := steps w;
     calls := calls w; sleeps := sleeps w ++ [secs] |}.

(** The world after [agent.invoke(prompt)] was issued. *)
Definition invoked (E : Env) (prompt : string) (w : World) : World :=
  let w := elapse E w in
  {| clock := clock w; steps := steps w;
     calls := calls w ++ [(clock w, prompt)]; sleeps := sleeps w |}.

(** ** The object *)

Section Matchmaker.

Context {DataFrame ChatGroq : Type}.
Variable E : Env.

(** The fields [__init__] assigns.  [agent] is the behaviour of the
    agent executor: its answer to the n-th invocation overall, given
    the prompt. *)
Record PropertyMatchmaker := {
  df : DataFrame;
  llm : ChatGroq;
  agent : nat -> string -> outcome;
  _cache : gmap string string;
  _request_times : list Z;
}.

(** [__init__], given what [pd.read_excel], [ChatGroq] and
    [create_pandas_dataframe_agent] built. *)
Definition __init__ (df0 : DataFrame) (llm0 : ChatGroq)
    (agent0 : nat -> string -> outcome) : PropertyMatchmaker :=
  {| df := df0; llm := llm0; agent := agent0;
     _cache := ∅; _request_times := [] |}.

Definition with_times (ts : list Z) (o : PropertyMatchmaker)
    : PropertyMatchmaker :=
  {| df := df o; llm := llm o; agent := agent o; _cache := _cache o;
     _request_times := ts |}.

Definition with_cache (c : gmap string string) (o : PropertyMatchmaker)
    : PropertyMatchmaker :=
  {| df := df o; llm := llm o; agent := agent o; _cache := c;
     _request_times := _request_times o |}.

Record Machine := { self : PropertyMatchmaker; world : World }.

Definition set_world (w : World) (s : Machine) : Machine :=
  {| self := self s; world := w |}.

Definition set_request_times (ts : list Z) (s : Machine) : Machine :=
  {| self := with_times ts (self s); world := world s |}.

Definition set_cache (c : gmap string string) (s : Machine) : Machine :=
  {| self := with_cache c (self s); world := world s |}.

(** *** Computations: state passing with exceptions *)

Definition M (A : Type) : Type := Machine -> Machine * result A.

Definition ret {A} (a : A) : M A := fun s => (s, Ok a).

Definition raise {A} (e : exn) : M A := fun s => (s, Raise e).

Definition bind {A B} (m : M A) (k : A -> M B) : M B :=
  fun s =>
    match m s with
    | (s', Ok a) => k a s'
    | (s', Raise e) => (s', Raise e)
    end.

(** [try: m  except Exception as e: h e] *)
Definition try_except {A} (m : M A) (h : exn -> M A) : M A :=
  fun s =>
    match m s with
    | (s', Ok a) => (s', Ok a)
    | (s', Raise e) => h e s'
    end.

Notation "x <- m ;; k" := (bind m (fun x => k))
  (at level 100, m at next level, right associativity).
Notation "m ;;; k" := (bind m (fun _ => k))
  (at level 100, right associativity).

(** *** Primitives *)

(** [time.time()] *)
Definition time_time : M Z :=
  fun s => let w := elapse E (world s) in (set_world w s, Ok (clock w)).

(** [time.sleep(secs)], [secs] in ticks. *)
Definition time_sleep (secs : Z) : M unit :=
  if secs <? 0 then raise (ValueError "sleep length must be non-negative")
  else fun s => (set_world (slept E secs (world s)) s, Ok tt).

(** [self.agent.invoke(prompt)]: the answer is that of the agent's
    next invocation, counted over the life of the world. *)
Definition agent_invoke (prompt : string) : M (gmap string string) :=
  fun s =>
    let s' := set_world (invoked E prompt (world s)) s in
    match agent (self s) (length (calls (world s))) prompt with
    | Returns response => (s', Ok response)
    | Raises text => (s', Raise (AgentError text))
    end.

(** [d[k]] *)
Definition getitem (d : gmap string string) (k : string) : M string :=
  match d !! k with
  | Some v => ret v
  | None => raise (KeyError k)
  end.

(** [l[0]] *)
Definition first (l : list Z) : M Z :=
  match l with
  | t :: _ => ret t
  | [] => raise (IndexError "list index out of range")
  end.

(** *** [_rate_limit] *)

Definition window : Z := seconds E 60.

(** [[t for t in times if now - t < 60]] *)
Definition prune (now : Z) (times : list Z) : list Z :=
  List.filter (fun t => now - t <? window) times.

Definition _rate_limit (max_rpm : Z) : M unit :=
  now <- time_time ;;
  (fun s => (set_request_times (prune now (_request_times (self s))) s, Ok tt)) ;;;
  (fun s =>
     if Z.of_nat (length (_request_times (self s))) >=? max_rpm then
       (t0 <- first (_request_times (self s)) ;;
        let wait := window - (now - t0) in
        if wait >? 0 then time_sleep wait else ret tt) s
     else ret tt s) ;;;
  t <- time_time ;;
  fun s => (set_request_times (_request_times (self s) ++ [t]) s, Ok tt).

(** *** [search_properties] *)

Definition system_prompt : string :=
  "You are a smart property search agent. Your goal is to find the right match of properties based on the user's query. "
  ++ "Queries may not be structured properly, therefore use your intelligence to understand the query well. "
  ++ "Determine if the request is for sale or rent. "
  ++ "Find properties that match the query and pick only the active ones. "
  ++ "If a specific requirement (like a pool) isn't met exactly, suggest the closest match. "
  ++ "Always return the Ref No, Location/Building Name, Size, No of Bedrooms, Price, and a short 'Why it fits' summary for each matching property.".

Definition newline : string := String (ascii_of_nat 10) EmptyString.

(** [f"{system_prompt}\n\nUser Request: {user_query}"] *)
Definition prompt_of (user_query : string) : string :=
  system_prompt ++ newline ++ newline ++ "User Request: " ++ user_query.

Definition could_not_complete : string :=
  "❌ Could not complete search — rate limit exceeded. Please try again in a few minutes.".

(** The test of line 102 on [err_str = str(e).lower()]. *)
Definition rate_limited (err_str : string) : bool :=
  Str.contains "429" err_str || Str.contains "rate" err_str
  || Str.contains "resource_exhausted" err_str.

(** [(attempt + 1) * 40], in ticks *)
Definition backoff (attempt : Z) : Z := seconds E ((attempt + 1) * 40).

(** [range(n)] *)
Definition range (n : Z) : list Z := map Z.of_nat (seq 0 (Z.to_nat n)).

(** One pass of the loop body for [attempt]: [Some result] when the
    function returns [result], [None] when the loop goes on. *)
Definition attempt_once (user_query key : string) (attempt : Z)
    : M (option string) :=
  try_except
    (response <- agent_invoke (prompt_of user_query) ;;
     result <- getitem response "output" ;;
     (fun s => (set_cache (<[key := result]> (_cache (self s))) s, Ok tt)) ;;;
     ret (Some result))
    (fun e =>
       let err_str := Str.lower (str_exn e) in
       if rate_limited err_str then
         let wait := backoff attempt in
         time_sleep wait ;;; ret None
       else raise e).

(** [for attempt in attempts: ...] followed by the final [return]. *)
Fixpoint retry_loop (user_query key : string) (attempts : list Z)
    : M string :=
  match attempts with
  | [] => ret could_not_complete
  | attempt :: rest =>
      r <- attempt_once user_query key attempt ;;
      match r with
      | Some result => ret result
      | None => retry_loop user_query key rest
      end
  end.

Definition search_properties (user_query : string) (max_retries : Z)
    : M string :=
  let key := cache_key user_query in
  fun s =>
    match _cache (self s) !! key with
    | Some v => ret v s
    | None =>
        (_rate_limit 10 ;;;
         retry_loop user_query key (range max_retries)) s
    end.

(** *** Sessions: calls made one after the other on the same object *)

Inductive call :=
| RateLimit (max_rpm : Z)
| Search (user_query : string) (max_retries : Z).

Definition do_call (c : call) (s : Machine) : Machine :=
  match c with
  | RateLimit max_rpm => fst (_rate_limit max_rpm s)
  | Search q n => fst (search_properties q n s)
  end.

Definition run (cs : list call) (s : Machine) : Machine :=
  fold_left (fun s c => do_call c s) cs s.

End Matchmaker.

(** ** Vocabulary of the statements *)

Section Vocabulary.

Context {DataFrame ChatGroq : Type}.
Variable E : Env.
Implicit Types s : @Machine DataFrame ChatGroq.

(** What the [except] clause of [search_properties] does with the
    exception [e], caught in state [s1] at loop index [attempt]. *)
Definition handled (attempt : Z) (e : exn) s1
    : Machine * result (option string) :=
  if rate_limited (Str.lower (str_exn e))
  then (set_world (slept E (backoff E attempt) (world s1)) s1, Ok None)
  else (s1, Raise e).

(** The invocation raised an error that line 102 classifies as a
    rate limit. *)
Definition rate_limit_error (o : outcome) : bool :=
  match o with
  | Raises text => rate_limited (Str.lower text)
  | Returns _ => false
  end.

(** The output of a successful invocation. *)
Definition output_of (o : outcome) : option string :=
  match o with
  | Returns response => response !! "output"
  | Raises _ => None
  end.

(** The answer of the object's agent to its [n]-th invocation when
    asked about [user_query]. *)
Definition answer s (n : nat) (user_query : string) : outcome :=
  agent (self s) n (prompt_of user_query).

(** The number of agent invocations so far. *)
Definition invocations s : nat := length (calls (world s)).

(** The state in which the loop goes on after a rate-limit error at
    loop index [attempt]: the agent was invoked and the caller slept. *)
Definition backed_off (user_query : string) (attempt : Z) s : Machine :=
  set_world (slept E (backoff E attempt)
               (invoked E (prompt_of user_query) (world s))) s.

(** The request log is in nondecreasing order and holds no time of
    the future. *)
Definition log_ok s : Prop :=
  StronglySorted Z.le (_request_times (self s))
  /\ Forall (fun t => t <= clock (world s)) (_request_times (self s)).

(** The time stamps [t] of [l] with [T - 60 s < t <= T]. *)
Definition in_window (T : Z) (l : list Z) : list Z :=
  List.filter (fun t => (T - t <? window E) && (t <=? T)) l.

(** The call goes through the throttle with the budget [k]:
    [search_properties] always passes the default, 10. *)
Definition uses (k : Z) (c : call) : Prop :=
  match c with
  | RateLimit max_rpm => max_rpm = k
  | Search _ _ => k = 10
  end.

(** The time stamp the call [c], made in state [s], appends to the
    request log, if it appends one: the time at which [_rate_limit]
    returns. *)
Definition stamped (c : call) s : list Z :=
  match c with
  | RateLimit max_rpm =>
      match snd (_rate_limit E max_rpm s) with
      | Ok _ => [clock (world (fst (_rate_limit E max_rpm s)))]
      | Raise _ => []
      end
  | Search q _ =>
      match _cache (self s) !! cache_key q with
      | Some _ => []
      | None => [clock (world (fst (_rate_limit E 10 s)))]
      end
  end.

(** All time stamps appended during a session, oldest first. *)
Fixpoint acquisitions (cs : list call) s : list Z :=
  match cs with
  | [] => []
  | c :: cs' => stamped c s ++ acquisitions cs' (do_call E c s)
  end.

(** [H] is the history of a session that has reached [s] under the
    budget [k]: it lies in the past, the request log still holds
    whatever of it a later check would count, and no window of sixty
    seconds holds more than [k] of its time stamps. *)
Definition tracked (k : Z) (H : list Z) s : Prop :=
  Forall (fun t => t <= clock (world s)) H
  /\ (forall T, clock (world s) <= T ->
        prune E T H = prune E T (_request_times (self s)))
  /\ (forall T, Z.of_nat (length (in_window T H)) <= k).

(** The times at which the agent was invoked. *)
Definition invocation_times s : list Z := map fst (calls (world s)).

End Vocabulary.


(** The statements of the specification that do not hold of the code,
    as it states them. *)
Section Stated.

Context {DataFrame ChatGroq : Type}.
Variable E : Env.
Implicit Types s : @Machine DataFrame ChatGroq.

(** Calling [search(q)] twice in succession issues at most one
    external call. *)
Definition twice_at_most_one_call (q : string) (max_retries : Z) s : Prop :=
  (invocations (run E [Search q max_retries; Search q max_retries] s)
   <= invocations s + 1)%nat.

(** No more than [k] calls are issued to the agent within the
    sixty seconds trailing [T]. *)
Definition agent_calls_within (k T : Z) s : Prop :=
  Z.of_nat (length (in_window E T (invocation_times s))) <= k.


End Stated.

(** A sequence [f 0, f 1, ...] grows exponentially when the ratio of
    consecutive terms is constant; every [c * b ^ i] does. *)
Definition exponential_growth (f : Z -> Z) : Prop :=
  forall i, 0 <= i -> f (i + 1) * f (i + 1) = f i * f (i + 2).

(** The cache key is injective on normalized queries. *)
Definition cache_key_injective : Prop :=
  forall q1 q2 : string,
    normalize q1 <> normalize q2 -> cache_key q1 <> cache_key q2.

(** ** Concrete sessions *)

Module Demo.

(** One tick a second, and no time lost between the steps. *)
Definition env : Env := {| hz := 1; lag := fun _ => 0%N |}.

Definition reply (o : string) : outcome := Returns {[ "output" := o ]}.

Definition too_many : outcome :=
  Raises "Error code: 429 - Rate limit reached for model".

Definition unauthorized : outcome :=
  Raises "Error code: 401 - Invalid API Key".

(** A mock agent whose invocations [from], ..., [from + r - 1] raise
    a 429 and whose other invocations answer [o]. *)
Definition flaky (from r : nat) (o : string) : nat -> string -> outcome :=
  fun n _ => if ((from <=? n) && (n <? from + r))%nat then too_many else reply o.

(** A mock agent that always fails with an error that is no rate
    limit. *)
Definition broken : nat -> string -> outcome := fun _ _ => unauthorized.

(** A new object at time [0]. *)
Definition start (agent0 : nat -> string -> outcome) : @Machine unit unit :=
  {| self := __init__ tt tt agent0;
     world := {| clock := 0; steps := 0; calls := []; sleeps := [] |} |}.

Definition villa : string := "3 bed villa with pool".

Definition villa_answer : string :=
  "Ref 101, Marina, 3BR, $1.2M - fits: has pool".

(** One search a query, with the default number of retries. *)
Definition searches (qs : list string) : list call :=
  map (fun q => Search q 3) qs.

(** Ten different queries. *)
Definition ten_queries : list string :=
  ["q0"; "q1"; "q2"; "q3"; "q4"; "q5"; "q6"; "q7"; "q8"; "q9"].

End Demo.

(** ** The chat front end: [streamlitApp.py] *)

(** One entry of [st.session_state.messages]:
    [{"role": ..., "content": ...}]. *)
Record message := { role : string; content : string }.

(** What a run of the script writes to the page, in the order of the
    calls.  A chat message is a [with st.chat_message(name):] block
    with the texts passed to [st.markdown] inside it; how Streamlit
    renders a text is not modelled.  The spinner, which is gone when
    the run ends, is left out. *)
Inductive element :=
| PageConfig (page_title page_icon : string)
| Title (body : string)
| Caption (body : string)
| ChatMessage (name : string) (body : list string)
| ChatInput (placeholder : string).

Section App.

Context {DataFrame ChatGroq : Type}.
Variable E : Env.

(** What [PropertyMatchmaker()] builds from the spreadsheet and the
    API key of the deployment. *)
Variable df0 : DataFrame.
Variable llm0 : ChatGroq.
Variable agent0 : nat -> string -> outcome.

(** [st.session_state] after its initialisation: the two keys are set
    together, by lines 14 and 15. *)
Record Session := {
  matcher : @PropertyMatchmaker DataFrame ChatGroq;
  messages : list message;
}.

(** The session state, absent before the first run, and the world. *)
Record Browser := {
  session_state : option Session;
  outside : World;
}.

Definition header : list element :=
  [PageConfig "PropMatch AI" "🏠";
   Title "🏠 Real Estate Matchmaker";
   Caption "Powered by Llama-3.3 & Groq"].

Definition chat_input : element :=
  ChatInput "E.g., Find me a 3-bed villa in Central with a pool".

(** [for message in messages: with st.chat_message(...): st.markdown(...)] *)
Definition history (ms : list message) : list element :=
  map (fun m => ChatMessage (role m) [content m]) ms.

(** Lines 13 to 15. *)
Definition initialised (b : Browser) : Session :=
  match session_state b with
  | Some sess => sess
  | None => {| matcher := __init__ df0 llm0 agent0; messages := [] |}
  end.

(** The truth value of what [st.chat_input] returned: [None] and the
    empty string are false. *)
Definition submitted_prompt (submitted : option string) : option string :=
  match submitted with
  | Some EmptyString => None
  | other => other
  end.

(** One run of the script, given what [st.chat_input] returns in it:
    the browser afterwards, the page, and whether the run ended in an
    exception. *)
Definition run_streamlit_app (submitted : option string) (b : Browser)
    : Browser * list element * result unit :=
  let sess := initialised b in
  let page := (header ++ history (messages sess) ++ [chat_input])%list in
  match submitted_prompt submitted with
  | None =>
      ({| session_state := Some sess; outside := outside b |}, page, Ok tt)
  | Some prompt =>
      let asked :=
        (messages sess ++ [{| role := "user"; content := prompt |}])%list in
      let page := (page ++ [ChatMessage "user" [prompt]])%list in
      match search_properties E prompt 3
              {| self := matcher sess; world := outside b |} with
      | (s', Ok response) =>
          ({| session_state :=
                Some {| matcher := self s';
                        messages :=
                          (asked ++ [{| role := "assistant";
                                        content := response |}])%list |};
              outside := world s' |},
           (page ++ [ChatMessage "assistant" [response]])%list, Ok tt)
      | (s', Raise e) =>
          ({| session_state := Some {| matcher := self s'; messages := asked |};
              outside := world s' |},
           (page ++ [ChatMessage "assistant" []])%list, Raise e)
      end
  end.

(** The browser after a series of runs, one per item of [inputs]. *)
Definition reruns (inputs : list (option string)) (b : Browser) : Browser :=
  fold_left (fun b i => fst (fst (run_streamlit_app i b))) inputs b.

(** The matcher of the session together with the world. *)
Definition machine_of (b : Browser) : Machine :=
  {| self := matcher (initialised b); world := outside b |}.

(** The chat messages of a page: for each, the name of the block and
    the texts written inside it. *)
Fixpoint bubbles (page : list element) : list (string * list string) :=
  match page with
  | [] => []
  | ChatMessage name body :: rest => (name, body) :: bubbles rest
  | _ :: rest => bubbles rest
  end.

(** The messages of one exchange: the prompt and, unless the run
    ended in an exception, the answer. *)
Definition exchange (x : string * option string) : list message :=
  {| role := "user"; content := fst x |}
  :: match snd x with
     | Some response => [{| role := "assistant"; content := response |}]
     | None => []
     end.

(** The prompts among the inputs of a series of runs. *)
Definition prompts (inputs : list (option string)) : list string :=
  omap submitted_prompt inputs.

(** The transcript that the prompts [ps] produce when they are
    searched for one after the other, from the state [s] of the
    matcher and the world: for each, the exchange with what
    [search_properties] returned, or with no answer when it raised. *)
Fixpoint transcript_of (ps : list string) (s : @Machine DataFrame ChatGroq)
    : list message :=
  match ps with
  | [] => []
  | p :: ps' =>
      (exchange (p, match snd (search_properties E p 3 s) with
                    | Ok response => Some response
                    | Raise _ => None
                    end)
       ++ transcript_of ps' (fst (search_properties E p 3 s)))%list
  end.

End App.

(** The substrings of an error text that line 102 looks for. *)
Definition indicators : list string :=
  ["429"; "rate"; "resource_exhausted"].

(** The sum of a list of durations. *)
Definition total_time (l : list Z) : Z := fold_right Z.add 0 l.

(** Successive agent invocations are kept apart by the back-off of
    the loop index at which the earlier one failed. *)
Fixpoint spaced_by (E : Env) (attempts : list Z) (times : list Z) : Prop :=
  match attempts, times with
  | attempt :: attempts', t1 :: ((t2 :: _) as times') =>
      t1 + backoff E attempt <= t2 /\ spaced_by E attempts' times'
  | _, _ => True
  end.

(** The string holds ASCII characters only: on such strings
    [Str.lower] and [Str.strip] are [str.lower] and [str.strip]. *)
Fixpoint ascii_only (s : string) : bool :=
  match s with
  | EmptyString => true
  | String c t => (Str.code c <? 128) && ascii_only t
  end.

(** ** Sessions on a wall clock *)

(** [time.time()] reads the system clock, which can be set while the
    process runs.  In the sessions below the clock may be changed
    between two calls. *)
Inductive event :=
| Call (c : call)
| ClockSet (delta : Z).

Section WallClock.

Context {DataFrame ChatGroq : Type}.
Variable E : Env.
Implicit Types s : @Machine DataFrame ChatGroq.

(** The system clock is moved by [delta] ticks, back when [delta] is
    negative. *)
Definition clock_set (delta : Z) s : Machine :=
  set_world {| clock := clock (world s) + delta; steps := steps (world s);
               calls := calls (world s); sleeps := sleeps (world s) |} s.

Definition happen (e : event) s : Machine :=
  match e with
  | Call c => do_call E c s
  | ClockSet delta => clock_set delta s
  end.

Definition run_events (es : list event) s : Machine :=
  fold_left (fun s e => happen e s) es s.

(** The event does not set the clock back. *)
Definition forward (e : event) : Prop :=
  match e with
  | Call _ => True
  | ClockSet delta => 0 <= delta
  end.

End WallClock.

(** Further concrete cases. *)
Module Cases.

(** A mock agent whose responses lack the key ["output"]. *)
Definition mute : nat -> string -> outcome := fun _ _ => Returns ∅.

(** A browser before the first run, at time [0], of a deployment
    whose agent answers every prompt with [Demo.villa_answer]. *)
Definition fresh_browser : @Browser unit unit :=
  {| session_state := None;
     outside := {| clock := 0; steps := 0; calls := []; sleeps := [] |} |}.

Definition helpful : nat -> string -> outcome :=
  Demo.flaky 0 0 Demo.villa_answer.

Definition shouted : string := "  3 Bed Villa WITH pool ".

(** A new object at time [1000]. *)
Definition start_at_1000 (agent0 : nat -> string -> outcome)
    : @Machine unit unit :=
  {| self := __init__ tt tt agent0;
     world := {| clock := 1000; steps := 0; calls := []; sleeps := [] |} |}.

(** An environment in which every primitive step takes a hundred
    seconds. *)
Definition slow : Env := {| hz := 1; lag := fun _ => 100%N |}.

End Cases.

(** * Properties *)

Local Open Scope list_scope.

(** ** MD5 test vectors *)

Example md5_empty : MD5.hexdigest [] = "d41d8cd98f00b204e9800998ecf8427e".
Proof. vm_compute. reflexivity. Qed.

Example md5_abc : cache_key "abc" = "900150983cd24fb0d6963f7d28e17f72".
Proof. vm_compute. reflexivity. Qed.

Example md5_two_blocks :
  cache_key (Str.rep "a" 119) = "8a7bd0732ed6a28ce75f6dabc90e1613"
  /\ cache_key (Str.rep "a" 120) = "5f61c0ccad4cac44c75ff505e1f1e537"
  /\ cache_key (Str.rep "a" 55) = "ef1772b6dff9a122358552954ad0df65"
  /\ cache_key (Str.rep "a" 56) = "3b0c8ac703f828b04c6c197006d17218"
  /\ cache_key (Str.rep "a" 64) = "014842d480b571495a4a0363793f7367".
Proof. vm_compute. repeat split. Qed.

Example md5_scenario :
  cache_key "  3 Bed Villa WITH pool " = "444eb7b1b83e77dc5ecadf56c83c9c2f".
Proof. vm_compute. reflexivity. Qed.


(** ** The clock *)

Lemma window_pos (E : Env) : 0 < window E.
Proof. unfold window, seconds. lia. Qed.

Lemma backoff_pos (E : Env) (attempt : Z) : 0 <= attempt -> 0 < backoff E attempt.
Proof. unfold backoff, seconds. intros. nia. Qed.

Lemma elapse_clock (E : Env) (w : World) : clock w <= clock (elapse E w).
Proof. simpl. lia. Qed.

Lemma slept_clock (E : Env) (secs : Z) (w : World) :
  clock w + secs <= clock (slept E secs w).
Proof. simpl. lia. Qed.

Lemma invoked_clock (E : Env) (prompt : string) (w : World) :
  clock w <= clock (invoked E prompt w).
Proof. simpl. lia. Qed.

(** ** Pruning *)

Section Prune.

Variable E : Env.

Lemma prune_In (now t : Z) (l : list Z) :
  In t (prune E now l) <-> In t l /\ now - t < window E.
Proof.
  unfold prune. rewrite filter_In, Z.ltb_lt. reflexivity.
Qed.

Lemma prune_app (now : Z) (l1 l2 : list Z) :
  prune E now (l1 ++ l2) = prune E now l1 ++ prune E now l2.
Proof. apply List.filter_app. Qed.

Lemma prune_Forall (P : Z -> Prop) (now : Z) (l : list Z) :
  Forall P l -> Forall P (prune E now l).
Proof.
  rewrite !List.Forall_forall. intros H t Ht.
  apply prune_In in Ht. apply H, Ht.
Qed.

Lemma prune_sorted (now : Z) (l : list Z) :
  StronglySorted Z.le l -> StronglySorted Z.le (prune E now l).
Proof.
  induction 1 as [|t l Hl IH Ht]; simpl; [constructor|].
  destruct (now - t <? window E); [|exact IH].
  constructor; [exact IH|]. apply prune_Forall, Ht.
Qed.

(** A later check keeps no more than an earlier one. *)
Lemma prune_length_mono (now now' : Z) (l : list Z) :
  now <= now' -> (length (prune E now' l) <= length (prune E now l))%nat.
Proof.
  intros Hle. induction l as [|t l IH]; simpl; [lia|].
  destruct (now' - t <? window E) eqn:H1;
    destruct (now - t <? window E) eqn:H2; simpl; lia.
Qed.

Lemma prune_prune (now now' : Z) (l : list Z) :
  now <= now' -> prune E now' (prune E now l) = prune E now' l.
Proof.
  intros Hle. induction l as [|t l IH]; simpl; [reflexivity|].
  destruct (now - t <? window E) eqn:H2; simpl; rewrite IH; [reflexivity|].
  destruct (now' - t <? window E) eqn:H1; [lia|reflexivity].
Qed.

(** The wait computed from a retained entry is positive. *)
Lemma prune_head_wait (now t0 : Z) (l rest : list Z) :
  prune E now l = t0 :: rest -> 0 < window E - (now - t0).
Proof.
  intros H. assert (Hin : In t0 (prune E now l)) by (rewrite H; left; reflexivity).
  apply prune_In in Hin. lia.
Qed.

Lemma prune_length (now : Z) (l : list Z) :
  (length (prune E now l) <= length l)%nat.
Proof.
  induction l as [|t l IH]; simpl; [lia|].
  destruct (now - t <? window E); simpl; lia.
Qed.

End Prune.

(** ** [_rate_limit], step by step *)

Section RateLimit.

Context {DataFrame ChatGroq : Type}.
Variable E : Env.
Implicit Types s : @Machine DataFrame ChatGroq.

(** The three ways through [_rate_limit]: the budget is not used up;
    it is used up and the caller sleeps; or the pruned log is empty
    and [self._request_times[0]] fails. *)
Lemma rate_limit_unfold (max_rpm : Z) s :
  let w1 := elapse E (world s) in
  let now := clock w1 in
  let kept := prune E now (_request_times (self s)) in
  _rate_limit E max_rpm s =
    if Z.of_nat (length kept) >=? max_rpm then
      match kept with
      | [] => ({| self := with_times kept (self s); world := w1 |},
               Raise (IndexError "list index out of range"))
      | t0 :: _ =>
          let wait := window E - (now - t0) in
          let w3 := elapse E (slept E wait w1) in
          ({| self := with_times (kept ++ [clock w3]) (self s); world := w3 |},
           Ok tt)
      end
    else
      let w3 := elapse E w1 in
      ({| self := with_times (kept ++ [clock w3]) (self s); world := w3 |},
       Ok tt).
Proof.
  intros w1 now kept.
  unfold _rate_limit, bind, time_time, set_request_times, set_world.
  cbn -[elapse slept prune window]. fold w1. fold now. fold kept.
  destruct (Z.of_nat (length kept) >=? max_rpm) eqn:Hfull; [|reflexivity].
  destruct kept as [|t0 rest] eqn:Hkept; [reflexivity|].
  cbn -[elapse slept prune window].
  assert (Hin : In t0 (prune E now (_request_times (self s)))).
  { fold kept. rewrite Hkept. left. reflexivity. }
  apply filter_In in Hin. destruct Hin as [_ Hin].
  apply Z.ltb_lt in Hin.
  assert (Hw : (window E - (now - t0) >? 0) = true) by (apply Z.gtb_lt; lia).
  rewrite Hw. unfold time_sleep.
  assert (Hn : (window E - (now - t0) <? 0) = false) by (apply Z.ltb_ge; lia).
  rewrite Hn. reflexivity.
Qed.

End RateLimit.

(** ** The retry loop, step by step *)

Section Retry.

Context {DataFrame ChatGroq : Type}.
Variable E : Env.
Implicit Types s : @Machine DataFrame ChatGroq.

Lemma range_nonneg (n : Z) : Forall (fun a => 0 <= a) (range n).
Proof.
  unfold range. apply List.Forall_forall. intros a Ha.
  apply in_map_iff in Ha. destruct Ha as [k [<- _]]. lia.
Qed.

Lemma range_length (n : Z) : length (range n) = Z.to_nat n.
Proof. unfold range. rewrite length_map, length_seq. reflexivity. Qed.

Lemma time_sleep_nonneg (secs : Z) s :
  0 <= secs ->
  time_sleep E secs s = (set_world (slept E secs (world s)) s, Ok tt).
Proof.
  intros H. unfold time_sleep.
  destruct (secs <? 0) eqn:Hneg; [lia|reflexivity].
Qed.

Lemma key_error_not_rate_limited :
  rate_limited (Str.lower (str_exn (KeyError "output"))) = false.
Proof. vm_compute. reflexivity. Qed.

(** One pass of the loop body. *)
Lemma attempt_once_unfold (q key : string) (attempt : Z) s :
  0 <= attempt ->
  attempt_once E q key attempt s =
    let s1 := set_world (invoked E (prompt_of q) (world s)) s in
    match answer s (invocations s) q with
    | Returns response =>
        match response !! "output" with
        | Some result =>
            (set_cache (<[key := result]> (_cache (self s))) s1,
             Ok (Some result))
        | None => (s1, Raise (KeyError "output"))
        end
    | Raises text => handled E attempt (AgentError text) s1
    end.
Proof.
  intros Ha. unfold attempt_once, try_except, bind, agent_invoke, answer,
    invocations, handled.
  destruct (agent (self s) (length (calls (world s))) (prompt_of q))
    as [response|text].
  - unfold getitem. destruct (response !! "output") as [result|].
    + reflexivity.
    + unfold raise. rewrite key_error_not_rate_limited. reflexivity.
  - destruct (rate_limited (Str.lower (str_exn (AgentError text)))).
    + rewrite time_sleep_nonneg by (pose proof (backoff_pos E attempt Ha); lia).
      reflexivity.
    + reflexivity.
Qed.

Lemma retry_loop_backs_off (q key : string) (a : Z) (atts : list Z) s :
  0 <= a ->
  rate_limit_error (answer s (invocations s) q) = true ->
  retry_loop E q key (a :: atts) s = retry_loop E q key atts (backed_off E q a s).
Proof.
  intros Ha Herr. cbn [retry_loop]. unfold bind.
  rewrite (attempt_once_unfold q key a s Ha).
  destruct (answer s (invocations s) q) as [response|text]; [discriminate|].
  cbn [rate_limit_error] in Herr. cbv zeta. unfold handled.
  cbn [str_exn]. rewrite Herr. reflexivity.
Qed.

Lemma backed_off_invocations (q : string) (a : Z) s :
  invocations (backed_off E q a s) = S (invocations s).
Proof.
  unfold invocations, backed_off. cbn. rewrite length_app. cbn. lia.
Qed.

(** After [r] rate-limit errors in a row the loop stands at its
    [r]-th index, in a state that differs from the first by [r]
    invocations and [r] sleeps. *)
Lemma retry_loop_after_failures (q key : string) (r : nat) :
  forall (atts : list Z) s,
    Forall (fun a => 0 <= a) atts ->
    (r <= length atts)%nat ->
    (forall i, (i < r)%nat ->
       rate_limit_error (answer s (invocations s + i) q) = true) ->
    exists s_r,
      retry_loop E q key atts s = retry_loop E q key (skipn r atts) s_r
      /\ self s_r = self s
      /\ invocations s_r = (invocations s + r)%nat
      /\ sleeps (world s_r) = sleeps (world s) ++ map (backoff E) (firstn r atts)
      /\ clock (world s) <= clock (world s_r).
Proof.
  induction r as [|r IH]; intros atts s Hpos Hlen Hfail.
  - exists s. cbn. rewrite app_nil_r, Nat.add_0_r. repeat split; lia.
  - destruct atts as [|a atts]; [cbn in Hlen; lia|].
    apply Forall_cons_1 in Hpos. destruct Hpos as [Ha Hpos].
    assert (H0 : rate_limit_error (answer s (invocations s) q) = true).
    { rewrite <- (Nat.add_0_r (invocations s)). apply Hfail. lia. }
    destruct (IH atts (backed_off E q a s) Hpos) as (s_r & Heq & Hself & Hn & Hsl & Hck).
    { cbn in Hlen. lia. }
    { intros i Hi. rewrite backed_off_invocations.
      replace (S (invocations s) + i)%nat with (invocations s + S i)%nat by lia.
      apply (Hfail (S i)). lia. }
    exists s_r. rewrite retry_loop_backs_off by assumption.
    rewrite backed_off_invocations in Hn.
    repeat split.
    + exact Heq.
    + exact Hself.
    + lia.
    + rewrite Hsl. cbn. rewrite <- app_assoc. reflexivity.
    + etransitivity; [|exact Hck]. cbn.
      pose proof (backoff_pos E a Ha). lia.
Qed.

End Retry.

(** ** What [_rate_limit] leaves alone *)

Section RateLimitFrame.

Context {DataFrame ChatGroq : Type}.
Variable E : Env.
Implicit Types s : @Machine DataFrame ChatGroq.

Ltac rate_limit_cases max_rpm s :=
  rewrite (rate_limit_unfold E max_rpm s); cbv zeta;
  destruct (Z.of_nat (length (prune E (clock (elapse E (world s)))
                                (_request_times (self s)))) >=? max_rpm);
  [let t0 := fresh "t0" in
   let rest := fresh "rest" in
   let Hkept := fresh "Hkept" in
   destruct (prune E (clock (elapse E (world s))) (_request_times (self s)))
     as [|t0 rest] eqn:Hkept;
   [|apply prune_head_wait in Hkept]|].

Lemma rate_limit_frame (max_rpm : Z) s :
  let s' := fst (_rate_limit E max_rpm s) in
  df (self s') = df (self s) /\ llm (self s') = llm (self s)
  /\ agent (self s') = agent (self s) /\ _cache (self s') = _cache (self s)
  /\ calls (world s') = calls (world s)
  /\ clock (world s) <= clock (world s').
Proof.
  cbv zeta. rate_limit_cases max_rpm s; cbn in *; repeat split; lia.
Qed.

(** With a positive budget the index [0] is never out of range. *)
Lemma rate_limit_returns (max_rpm : Z) s :
  0 < max_rpm -> snd (_rate_limit E max_rpm s) = Ok tt.
Proof.
  intros Hk. rewrite (rate_limit_unfold E max_rpm s). cbv zeta.
  destruct (prune E (clock (elapse E (world s))) (_request_times (self s)))
    as [|t0 rest].
  - destruct (Z.of_nat (length (@nil Z)) >=? max_rpm) eqn:Hfull;
      [apply Z.geb_le in Hfull; cbn in Hfull; lia|reflexivity].
  - destruct (Z.of_nat (length (t0 :: rest)) >=? max_rpm); reflexivity.
Qed.

Lemma rate_limit_answer (max_rpm : Z) s (n : nat) (q : string) :
  answer (fst (_rate_limit E max_rpm s)) n q = answer s n q.
Proof.
  unfold answer. destruct (rate_limit_frame max_rpm s) as (_ & _ & -> & _).
  reflexivity.
Qed.

Lemma rate_limit_invocations (max_rpm : Z) s :
  invocations (fst (_rate_limit E max_rpm s)) = invocations s.
Proof.
  unfold invocations.
  destruct (rate_limit_frame max_rpm s) as (_ & _ & _ & _ & -> & _).
  reflexivity.
Qed.

(** On a cache miss [search_properties] is the throttle followed by
    the loop. *)
Lemma search_miss (q : string) (max_retries : Z) s :
  _cache (self s) !! cache_key q = None ->
  search_properties E q max_retries s
  = retry_loop E q (cache_key q) (range max_retries) (fst (_rate_limit E 10 s)).
Proof.
  intros Hmiss. unfold search_properties. rewrite Hmiss. unfold bind.
  pose proof (rate_limit_returns 10 s ltac:(lia)) as Hok.
  destruct (_rate_limit E 10 s) as [s1 r1]. cbn in Hok. subst r1.
  reflexivity.
Qed.

Lemma search_hit (q : string) (max_retries : Z) (v : string) s :
  _cache (self s) !! cache_key q = Some v ->
  search_properties E q max_retries s = (s, Ok v).
Proof.
  intros Hhit. unfold search_properties. rewrite Hhit. reflexivity.
Qed.

End RateLimitFrame.

(** ** The ways out of the loop *)

Section Endings.

Context {DataFrame ChatGroq : Type}.
Variable E : Env.
Implicit Types s : @Machine DataFrame ChatGroq.

Lemma retry_loop_success (q key o : string) (a : Z) (atts : list Z) s :
  0 <= a ->
  output_of (answer s (invocations s) q) = Some o ->
  retry_loop E q key (a :: atts) s
  = (set_cache (<[key := o]> (_cache (self s)))
       (set_world (invoked E (prompt_of q) (world s)) s), Ok o).
Proof.
  intros Ha Hout. cbn [retry_loop]. unfold bind.
  rewrite (attempt_once_unfold E q key a s Ha).
  destruct (answer s (invocations s) q) as [response|text]; [|discriminate].
  cbn [output_of] in Hout. cbv zeta. rewrite Hout. reflexivity.
Qed.

Lemma retry_loop_other_error (q key text : string) (a : Z) (atts : list Z) s :
  0 <= a ->
  answer s (invocations s) q = Raises text ->
  rate_limited (Str.lower text) = false ->
  retry_loop E q key (a :: atts) s
  = (set_world (invoked E (prompt_of q) (world s)) s, Raise (AgentError text)).
Proof.
  intros Ha Hans Hcls. cbn [retry_loop]. unfold bind.
  rewrite (attempt_once_unfold E q key a s Ha), Hans. cbv zeta.
  unfold handled. cbn [str_exn]. rewrite Hcls. reflexivity.
Qed.

Lemma skipn_cons_nonneg (r : nat) (atts : list Z) :
  Forall (fun a => 0 <= a) atts -> (r < length atts)%nat ->
  exists a rest, skipn r atts = a :: rest /\ 0 <= a.
Proof.
  revert atts. induction r as [|r IH]; intros [|a atts] Hpos Hlen;
    cbn in Hlen; try lia.
  - exists a, atts. apply Forall_cons_1 in Hpos. split; [reflexivity|apply Hpos].
  - apply Forall_cons_1 in Hpos. apply (IH atts); [apply Hpos|lia].
Qed.

Lemma firstn_range (j : nat) (n : Z) :
  Z.of_nat j <= n -> firstn j (range n) = range (Z.of_nat j).
Proof.
  intros Hle. unfold range. rewrite List.firstn_map. f_equal.
  rewrite Nat2Z.id. change (@firstn nat) with (@take nat).
  rewrite take_seq. f_equal. lia.
Qed.

End Endings.

(** ** Retrying on rate-limit errors *)

Section RetryClaims.

Context {DataFrame ChatGroq : Type}.
Variable E : Env.
Implicit Types s : @Machine DataFrame ChatGroq.

Lemma answer_same_self s1 s2 (n : nat) (q : string) :
  self s1 = self s2 -> answer s1 n q = answer s2 n q.
Proof. unfold answer. intros ->. reflexivity. Qed.

(** C1.  On a cache miss, if the agent's next [r] invocations raise
    errors classified as rate limits and the one after them returns
    the output [o], then [search_properties] returns [o], after
    [r + 1] invocations, when [max_retries > r], and returns the
    could-not-complete message, without raising, after [max_retries]
    invocations when [max_retries <= r]. *)
Theorem search_retries_until_success
    (q o : string) (max_retries : Z) (r : nat) s :
  _cache (self s) !! cache_key q = None ->
  (forall i, (i < r)%nat ->
     rate_limit_error (answer s (invocations s + i) q) = true) ->
  output_of (answer s (invocations s + r) q) = Some o ->
  (Z.of_nat r < max_retries ->
     snd (search_properties E q max_retries s) = Ok o
     /\ invocations (fst (search_properties E q max_retries s))
        = (invocations s + r + 1)%nat)
  /\ (max_retries <= Z.of_nat r ->
     snd (search_properties E q max_retries s) = Ok could_not_complete
     /\ invocations (fst (search_properties E q max_retries s))
        = (invocations s + Z.to_nat max_retries)%nat).
Proof.
  intros Hmiss Hfail Hout. rewrite (search_miss E q max_retries s Hmiss).
  set (s1 := fst (_rate_limit E 10 s)).
  assert (Hn1 : invocations s1 = invocations s)
    by apply rate_limit_invocations.
  assert (Ha1 : forall n, answer s1 n q = answer s n q)
    by (intros n; apply rate_limit_answer).
  split; intros Hr.
  - destruct (retry_loop_after_failures E q (cache_key q) r
                (range max_retries) s1) as (s_r & Heq & Hself & Hn & _).
    + apply range_nonneg.
    + rewrite range_length. lia.
    + intros i Hi. rewrite Hn1, Ha1. apply Hfail, Hi.
    + destruct (skipn_cons_nonneg r (range max_retries)) as (a & rest & Hsk & Ha).
      * apply range_nonneg.
      * rewrite range_length. lia.
      * rewrite Heq, Hsk.
        rewrite (retry_loop_success E q (cache_key q) o a rest s_r Ha).
        -- split; [reflexivity|]. cbn. unfold invocations in *. cbn.
           rewrite length_app. cbn. lia.
        -- rewrite (answer_same_self s_r s1 _ q Hself), Hn, Hn1, Ha1.
           exact Hout.
  - destruct (retry_loop_after_failures E q (cache_key q)
                (length (range max_retries)) (range max_retries) s1)
      as (s_r & Heq & Hself & Hn & _).
    + apply range_nonneg.
    + lia.
    + intros i Hi. rewrite Hn1, Ha1. apply Hfail.
      rewrite range_length in Hi. lia.
    + rewrite Heq, skipn_all. cbn. split; [reflexivity|].
      rewrite Hn, Hn1, range_length. reflexivity.
Qed.

(** C4.  On a cache miss, if the agent's next [j] invocations raise
    rate-limit errors and the one after them, still within
    [max_retries], raises an error whose lowercased text holds none
    of the three indicators, then [search_properties] raises that
    exception on that attempt: the failing invocation is the last
    one, no sleep follows it (the sleeps of the call are the
    throttle's and the [j] back-offs before it), and the cache is
    as it was. *)
Theorem search_other_error_propagates
    (q text : string) (max_retries : Z) (j : nat) s :
  _cache (self s) !! cache_key q = None ->
  Z.of_nat j < max_retries ->
  (forall i, (i < j)%nat ->
     rate_limit_error (answer s (invocations s + i) q) = true) ->
  answer s (invocations s + j) q = Raises text ->
  rate_limited (Str.lower text) = false ->
  let s' := fst (search_properties E q max_retries s) in
  snd (search_properties E q max_retries s) = Raise (AgentError text)
  /\ invocations s' = (invocations s + j + 1)%nat
  /\ sleeps (world s')
     = sleeps (world (fst (_rate_limit E 10 s)))
       ++ map (backoff E) (range (Z.of_nat j))
  /\ _cache (self s') = _cache (self s).
Proof.
  intros Hmiss Hj Hfail Hans Hcls. cbv zeta.
  rewrite (search_miss E q max_retries s Hmiss).
  set (s1 := fst (_rate_limit E 10 s)).
  assert (Hn1 : invocations s1 = invocations s)
    by apply rate_limit_invocations.
  assert (Ha1 : forall n, answer s1 n q = answer s n q)
    by (intros n; apply rate_limit_answer).
  destruct (retry_loop_after_failures E q (cache_key q) j
              (range max_retries) s1) as (s_r & Heq & Hself & Hn & Hsl & _).
  - apply range_nonneg.
  - rewrite range_length. lia.
  - intros i Hi. rewrite Hn1, Ha1. apply Hfail, Hi.
  - destruct (skipn_cons_nonneg j (range max_retries)) as (a & rest & Hsk & Ha).
    + apply range_nonneg.
    + rewrite range_length. lia.
    + rewrite Heq, Hsk.
      rewrite (retry_loop_other_error E q (cache_key q) text a rest s_r Ha).
      * cbn. repeat split.
        -- unfold invocations in *. cbn. rewrite length_app. cbn. lia.
        -- rewrite Hsl, firstn_range by lia. reflexivity.
        -- rewrite Hself. subst s1.
           destruct (rate_limit_frame E 10 s) as (_ & _ & _ & Hc & _).
           exact Hc.
      * rewrite (answer_same_self s_r s1 _ q Hself), Hn, Hn1, Ha1.
        exact Hans.
      * exact Hcls.
Qed.

End RetryClaims.

(** ** What a call changes *)

Section Effects.

Context {DataFrame ChatGroq : Type}.
Variable E : Env.
Implicit Types s : @Machine DataFrame ChatGroq.

(** Whatever the agent answers, the loop changes nothing of the
    object but the cache, and the cache only by the one entry of a
    successful last invocation. *)
Lemma retry_loop_effect (q key : string) (atts : list Z) :
  forall s,
    Forall (fun a => 0 <= a) atts ->
    let s' := fst (retry_loop E q key atts s) in
    let res := snd (retry_loop E q key atts s) in
    (df (self s') = df (self s) /\ llm (self s') = llm (self s)
     /\ agent (self s') = agent (self s)
     /\ _request_times (self s') = _request_times (self s))
    /\ clock (world s) <= clock (world s')
    /\ (invocations s <= invocations s' <= invocations s + length atts)%nat
    /\ ((_cache (self s') = _cache (self s)
         /\ (forall m, (invocations s <= m < invocations s')%nat ->
               output_of (answer s m q) = None)
         /\ (res = Ok could_not_complete \/ exists e, res = Raise e))
        \/ (exists v m,
             res = Ok v /\ invocations s' = S m /\ (invocations s <= m)%nat
             /\ output_of (answer s m q) = Some v
             /\ _cache (self s') = <[key := v]> (_cache (self s)))).
Proof.
  induction atts as [|a atts IH]; intros s Hpos; cbv zeta.
  - cbn. repeat split; try lia. left. repeat split.
    + intros m Hm. lia.
    + left. reflexivity.
  - apply Forall_cons_1 in Hpos. destruct Hpos as [Ha Hpos].
    destruct (rate_limit_error (answer s (invocations s) q)) eqn:Hrl.
    + (* a rate-limit error: the loop goes on *)
      rewrite (retry_loop_backs_off E q key a atts s Ha Hrl).
      specialize (IH (backed_off E q a s) Hpos). cbv zeta in IH.
      rewrite backed_off_invocations in IH.
      destruct IH as (Hfr & Hck & Hinv & Hcache).
      split; [exact Hfr|]. split.
      { etransitivity; [|exact Hck]. cbn. pose proof (backoff_pos E a Ha). lia. }
      split; [cbn [length]; lia|].
      destruct Hcache as [(Hc & Hnone & Hres)|(v & m & Hres & Hm & Hle & Hout & Hc)].
      * left. split; [exact Hc|]. split; [|exact Hres].
        intros m Hm. destruct (Nat.eq_dec m (invocations s)) as [->|Hne].
        -- destruct (answer s (invocations s) q); [discriminate|reflexivity].
        -- apply Hnone. lia.
      * right. exists v, m. repeat split; try assumption. lia.
    + (* success, or an error that is raised *)
      cbn [retry_loop]. unfold bind.
      rewrite (attempt_once_unfold E q key a s Ha). cbv zeta.
      destruct (answer s (invocations s) q) as [response|text] eqn:Hans.
      * destruct (response !! "output") as [result|] eqn:Hout.
        -- cbn. unfold invocations. cbn. rewrite length_app. cbn.
           repeat split; try lia.
           right. exists result, (length (calls (world s))).
           repeat split; try lia.
           fold (invocations s). rewrite Hans. exact Hout.
        -- cbn. unfold invocations. cbn. rewrite length_app. cbn.
           repeat split; try lia.
           left. repeat split.
           ++ intros m Hm. replace m with (invocations s)
                by (unfold invocations; lia).
              rewrite Hans. exact Hout.
           ++ right. eexists. reflexivity.
      * cbn [rate_limit_error] in Hrl. unfold handled. cbn [str_exn].
        rewrite Hrl. cbn. unfold invocations. cbn. rewrite length_app. cbn.
        repeat split; try lia.
        left. repeat split.
        -- intros m Hm. replace m with (invocations s)
             by (unfold invocations; lia).
           rewrite Hans. reflexivity.
        -- right. eexists. reflexivity.
Qed.

End Effects.

(** ** The throttle *)

Section Throttle.

Context {DataFrame ChatGroq : Type}.
Variable E : Env.
Implicit Types s : @Machine DataFrame ChatGroq.

(** What the throttle appends: a clock reading [t] not before the
    check, and at least sixty seconds after the first entry kept
    when the budget was used up. *)
Lemma rate_limit_appends (max_rpm : Z) s :
  0 < max_rpm ->
  let now := clock (elapse E (world s)) in
  let kept := prune E now (_request_times (self s)) in
  let s' := fst (_rate_limit E max_rpm s) in
  exists t,
    _request_times (self s') = kept ++ [t]
    /\ t = clock (world s') /\ now <= t
    /\ (max_rpm <= Z.of_nat (length kept) ->
          exists t0 rest, kept = t0 :: rest /\ t0 + window E <= t).
Proof.
  intros Hk. cbv zeta.
  rewrite (rate_limit_unfold E max_rpm s). cbv zeta.
  destruct (prune E (clock (elapse E (world s))) (_request_times (self s)))
    as [|t0 rest] eqn:Hkept.
  - destruct (Z.of_nat (length (@nil Z)) >=? max_rpm) eqn:Hfull.
    + apply Z.geb_le in Hfull. cbn in Hfull. lia.
    + eexists. split; [reflexivity|]. split; [reflexivity|].
      split; [apply elapse_clock|]. cbn [length]. lia.
  - apply prune_head_wait in Hkept.
    destruct (Z.of_nat (length (t0 :: rest)) >=? max_rpm) eqn:Hfull.
    + pose proof (slept_clock E (window E - (clock (elapse E (world s)) - t0))
                    (elapse E (world s))) as Hsl.
      pose proof (elapse_clock E
                    (slept E (window E - (clock (elapse E (world s)) - t0))
                       (elapse E (world s)))) as Hel.
      eexists. split; [reflexivity|]. split; [reflexivity|].
      cbn [world self fst]. split; [lia|].
      intros _. exists t0, rest. split; [reflexivity|lia].
    + assert (Hlt : Z.of_nat (length (t0 :: rest)) < max_rpm).
      { destruct (Z.geb_spec (Z.of_nat (length (t0 :: rest))) max_rpm);
          [discriminate|lia]. }
      eexists. split; [reflexivity|]. split; [reflexivity|].
      split; [apply elapse_clock|]. lia.
Qed.



(** The log invariant: [_rate_limit] keeps the log sorted and in
    the past, whatever the budget. *)
Lemma rate_limit_log_ok (max_rpm : Z) s :
  log_ok s -> log_ok (fst (_rate_limit E max_rpm s)).
Proof.
  intros [Hs Hp]. unfold log_ok.
  assert (Happ : forall now t,
            clock (world s) <= now -> now <= t ->
            StronglySorted Z.le (prune E now (_request_times (self s)) ++ [t])
            /\ Forall (fun u => u <= t)
                 (prune E now (_request_times (self s)) ++ [t])).
  { intros now t H1 H2.
    assert (Hb : Forall (fun u => u <= t) (prune E now (_request_times (self s)))).
    { apply prune_Forall. eapply List.Forall_impl; [|exact Hp].
      cbn. intros u Hu. lia. }
    split.
    - apply StronglySorted_app_2.
      + intros x1 x2 Hx1 Hx2. apply list_elem_of_In in Hx1, Hx2.
        destruct Hx2 as [<-|[]].
        rewrite List.Forall_forall in Hb. apply Hb, Hx1.
      + apply prune_sorted, Hs.
      + repeat constructor.
    - apply Forall_app. split; [exact Hb|]. repeat constructor. lia. }
  rewrite (rate_limit_unfold E max_rpm s). cbv zeta.
  destruct (Z.of_nat (length (prune E (clock (elapse E (world s)))
                                (_request_times (self s)))) >=? max_rpm).
  - destruct (prune E (clock (elapse E (world s))) (_request_times (self s)))
      as [|t0 rest] eqn:Hkept.
    + cbn -[elapse]. split; [constructor|constructor].
    + pose proof (prune_head_wait E _ t0 _ rest Hkept) as Hwait.
      cbn -[elapse slept window prune app]. rewrite <- Hkept.
      apply Happ; [apply elapse_clock|].
      etransitivity; [|apply elapse_clock].
      pose proof (slept_clock E (window E - (clock (elapse E (world s)) - t0))
                    (elapse E (world s))). lia.
  - cbn -[elapse prune].
    apply Happ; [apply elapse_clock|apply elapse_clock].
Qed.

End Throttle.

(** ** What [search_properties] changes *)

Section SearchEffects.

Context {DataFrame ChatGroq : Type}.
Variable E : Env.
Implicit Types s : @Machine DataFrame ChatGroq.

(** [retry_loop_effect], read from the state in which
    [search_properties] was called. *)
Lemma search_miss_effect (q : string) (max_retries : Z) s :
  _cache (self s) !! cache_key q = None ->
  let s1 := fst (_rate_limit E 10 s) in
  let s' := fst (search_properties E q max_retries s) in
  let res := snd (search_properties E q max_retries s) in
  (df (self s') = df (self s) /\ llm (self s') = llm (self s)
   /\ agent (self s') = agent (self s)
   /\ _request_times (self s') = _request_times (self s1))
  /\ clock (world s1) <= clock (world s')
  /\ (invocations s <= invocations s'
      <= invocations s + Z.to_nat max_retries)%nat
  /\ ((_cache (self s') = _cache (self s)
       /\ (forall m, (invocations s <= m < invocations s')%nat ->
             output_of (answer s m q) = None)
       /\ (res = Ok could_not_complete \/ exists e, res = Raise e))
      \/ (exists v m,
           res = Ok v /\ invocations s' = S m /\ (invocations s <= m)%nat
           /\ output_of (answer s m q) = Some v
           /\ _cache (self s') = <[cache_key q := v]> (_cache (self s)))).
Proof.
  intros Hmiss. cbv zeta. rewrite (search_miss E q max_retries s Hmiss).
  pose proof (retry_loop_effect E q (cache_key q) (range max_retries)
                (fst (_rate_limit E 10 s)) (range_nonneg max_retries)) as H.
  cbv zeta in H. rewrite range_length, rate_limit_invocations in H.
  destruct (rate_limit_frame E 10 s) as (Hdf & Hllm & Hag & Hc & _ & _).
  destruct H as ((H1 & H2 & H3 & H4) & Hck & Hinv & Hcache).
  split; [repeat split; congruence|]. split; [exact Hck|].
  split; [exact Hinv|].
  destruct Hcache as [(Hc' & Hnone & Hres)|(v & m & Hres & Hm & Hle & Hout & Hc')].
  - left. split; [congruence|]. split; [|exact Hres].
    intros m Hm. rewrite <- (rate_limit_answer E 10 s). apply Hnone, Hm.
  - right. exists v, m. rewrite <- (rate_limit_answer E 10 s), <- Hc.
    repeat split; assumption.
Qed.

(** C8.  The cache after [search_properties] is the cache before it
    whenever the call raises, and whenever none of the agent
    invocations made during the call returned an output (on a miss
    the call then ends in an exception or in the could-not-complete
    message); the only other possibility is that the last invocation
    of the call returned an output [v], the call returns [v], and the
    cache gained exactly the entry [cache_key q := v]. *)
Theorem cache_written_only_on_success (q : string) (max_retries : Z) s :
  let s' := fst (search_properties E q max_retries s) in
  let res := snd (search_properties E q max_retries s) in
  (forall e, res = Raise e -> _cache (self s') = _cache (self s))
  /\ ((forall m, (invocations s <= m < invocations s')%nat ->
         output_of (answer s m q) = None) ->
      _cache (self s') = _cache (self s)
      /\ (_cache (self s) !! cache_key q = None ->
          res = Ok could_not_complete \/ exists e, res = Raise e))
  /\ (_cache (self s') = _cache (self s)
      \/ exists v m,
           res = Ok v /\ invocations s' = S m /\ (invocations s <= m)%nat
           /\ output_of (answer s m q) = Some v
           /\ _cache (self s') = <[cache_key q := v]> (_cache (self s))).
Proof.
  cbv zeta. destruct (_cache (self s) !! cache_key q) as [v0|] eqn:Hlook.
  - rewrite (search_hit E q max_retries v0 s Hlook). cbn.
    repeat split; try reflexivity; try discriminate. left. reflexivity.
  - destruct (search_miss_effect q max_retries s Hlook)
      as (_ & _ & _ & [(Hc & Hnone & Hres)|(v & m & Hres & Hm & Hle & Hout & Hc)]).
    + repeat split; try (intros; assumption). left. exact Hc.
    + split; [|split].
      * intros e He. rewrite Hres in He. discriminate.
      * intros Hno. specialize (Hno m ltac:(lia)). congruence.
      * right. exists v, m. repeat split; assumption.
Qed.

(** C9.  A call of [search_properties] that misses the cache leaves
    the request log as one call of [_rate_limit] leaves it, the
    pruned log with one time stamp appended, however many times the
    loop invokes the agent (up to [max_retries] times); [df], [llm]
    and [agent] are not assigned; and the cache is as it was or has
    gained the returned result. *)
Theorem search_miss_frame (q : string) (max_retries : Z) s :
  _cache (self s) !! cache_key q = None ->
  let now := clock (elapse E (world s)) in
  let s' := fst (search_properties E q max_retries s) in
  let res := snd (search_properties E q max_retries s) in
  _request_times (self s') = _request_times (self (fst (_rate_limit E 10 s)))
  /\ (exists t, _request_times (self s')
                = prune E now (_request_times (self s)) ++ [t])
  /\ (invocations s <= invocations s' <= invocations s + Z.to_nat max_retries)%nat
  /\ df (self s') = df (self s) /\ llm (self s') = llm (self s)
  /\ agent (self s') = agent (self s)
  /\ (_cache (self s') = _cache (self s)
      \/ exists v, res = Ok v
           /\ _cache (self s') = <[cache_key q := v]> (_cache (self s))).
Proof.
  intros Hmiss. cbv zeta.
  destruct (search_miss_effect q max_retries s Hmiss)
    as ((Hdf & Hllm & Hag & Hlog) & _ & Hinv & Hcache).
  destruct (rate_limit_appends E 10 s ltac:(lia)) as (t & Ht & _).
  split; [exact Hlog|]. split; [exists t; rewrite Hlog; exact Ht|].
  split; [exact Hinv|]. repeat split; try assumption.
  destruct Hcache as [(Hc & _)|(v & m & Hres & _ & _ & _ & Hc)].
  - left. exact Hc.
  - right. exists v. split; assumption.
Qed.

End SearchEffects.

(** ** Sessions *)

Section Sessions.

Context {DataFrame ChatGroq : Type}.
Variable E : Env.
Implicit Types s : @Machine DataFrame ChatGroq.

Lemma search_log_ok (q : string) (max_retries : Z) s :
  log_ok s -> log_ok (fst (search_properties E q max_retries s)).
Proof.
  intros Hok. destruct (_cache (self s) !! cache_key q) as [v|] eqn:Hlook.
  - rewrite (search_hit E q max_retries v s Hlook). exact Hok.
  - destruct (search_miss_effect E q max_retries s Hlook)
      as ((_ & _ & _ & Hlog) & Hck & _).
    destruct (rate_limit_log_ok E 10 s Hok) as [Hs Hp].
    unfold log_ok. rewrite Hlog. split; [exact Hs|].
    cbv zeta in Hck.
    eapply List.Forall_impl; [|exact Hp]. cbv beta. intros t Ht. lia.
Qed.

Lemma do_call_log_ok (c : call) s : log_ok s -> log_ok (do_call E c s).
Proof.
  destruct c as [max_rpm|q n]; cbn.
  - apply rate_limit_log_ok.
  - apply search_log_ok.
Qed.

Lemma run_log_ok (cs : list call) : forall s, log_ok s -> log_ok (run E cs s).
Proof.
  induction cs as [|c cs IH]; intros s Hok; [exact Hok|].
  cbn. apply IH, do_call_log_ok, Hok.
Qed.

(** With the clock of the environment, which only moves forward:
    from the empty log of a new object on, after any sequence of
    [_rate_limit] and [search_properties] calls the request log is in
    nondecreasing order. *)
Theorem request_log_sorted
    (df0 : DataFrame) (llm0 : ChatGroq) (agent0 : nat -> string -> outcome)
    (w0 : World) (cs : list call) :
  Sorted Z.le
    (_request_times
       (self (run E cs {| self := __init__ df0 llm0 agent0; world := w0 |}))).
Proof.
  apply StronglySorted_Sorted.
  apply (run_log_ok cs {| self := __init__ df0 llm0 agent0; world := w0 |}).
  split; constructor.
Qed.

(** *** Counting time stamps in a window *)

Lemma in_window_app (T : Z) (l1 l2 : list Z) :
  in_window E T (l1 ++ l2) = in_window E T l1 ++ in_window E T l2.
Proof. apply List.filter_app. Qed.

Lemma in_window_past (T : Z) (l : list Z) :
  Forall (fun t => t <= T) l -> in_window E T l = prune E T l.
Proof.
  intros H. apply List.filter_ext_in. intros t Ht.
  rewrite List.Forall_forall in H. specialize (H t Ht).
  destruct (T - t <? window E); [|reflexivity].
  cbn. apply Z.leb_le, H.
Qed.

Lemma in_window_one (T t : Z) :
  (length (in_window E T [t]) <= 1)%nat
  /\ (T < t -> in_window E T [t] = []).
Proof.
  cbn. split.
  - destruct ((T - t <? window E) && (t <=? T)); cbn; lia.
  - intros Hlt. destruct (t <=? T) eqn:Hle; [lia|].
    rewrite andb_false_r. reflexivity.
Qed.

(** When [_rate_limit] returns at time [t], the log it started from
    holds fewer than [k] entries that a check at [t] would keep. *)
Lemma rate_limit_room (k : Z) s :
  0 < k ->
  (forall T, clock (world s) <= T ->
     Z.of_nat (length (prune E T (_request_times (self s)))) <= k) ->
  Z.of_nat (length (prune E (clock (world (fst (_rate_limit E k s))))
                      (_request_times (self s)))) + 1 <= k.
Proof.
  intros Hk Hbudget.
  destruct (rate_limit_appends E k s Hk) as (t & _ & <- & Hnow & Hfull).
  remember (clock (elapse E (world s))) as now eqn:Enow.
  pose proof (elapse_clock E (world s)) as Hel.
  pose proof (prune_length_mono E now t (_request_times (self s)) Hnow) as Hmono.
  destruct (Z.lt_ge_cases (Z.of_nat
              (length (prune E now (_request_times (self s))))) k) as [Hlt|Hge].
  - lia.
  - destruct (Hfull Hge) as (t0 & rest & Hkept & Hlate).
    rewrite <- (prune_prune E now t) by exact Hnow. rewrite Hkept.
    specialize (Hbudget now ltac:(lia)). rewrite Hkept in Hbudget.
    cbn [prune List.filter].
    destruct (t - t0 <? window E) eqn:Hin; [lia|].
    fold (prune E t rest). pose proof (prune_length E t rest).
    cbn [length] in Hbudget. lia.
Qed.

(** *** The history of a session *)

Lemma tracked_budget (k : Z) (H : list Z) s :
  tracked E k H s ->
  forall T, clock (world s) <= T ->
    Z.of_nat (length (prune E T (_request_times (self s)))) <= k.
Proof.
  intros (Hpast & Hlog & Hwin) T HT.
  rewrite <- (Hlog T HT), <- in_window_past; [apply Hwin|].
  eapply List.Forall_impl; [|exact Hpast]. cbv beta. intros t Ht. lia.
Qed.

(** Time passing, with the log untouched, keeps a history. *)
Lemma tracked_later (k : Z) (H : list Z) s s' :
  _request_times (self s') = _request_times (self s) ->
  clock (world s) <= clock (world s') ->
  tracked E k H s -> tracked E k H s'.
Proof.
  intros Hlog Hck (Hpast & Hsame & Hwin). repeat split.
  - eapply List.Forall_impl; [|exact Hpast]. cbv beta. intros t Ht. lia.
  - intros T HT. rewrite Hlog. apply Hsame. lia.
  - exact Hwin.
Qed.

Lemma rate_limit_tracked (k : Z) (H : list Z) s :
  0 < k -> tracked E k H s ->
  tracked E k (H ++ [clock (world (fst (_rate_limit E k s)))])
    (fst (_rate_limit E k s)).
Proof.
  intros Hk Htr.
  pose proof (rate_limit_room k s Hk (tracked_budget k H s Htr)) as Hroom.
  destruct Htr as (Hpast & Hsame & Hwin).
  destruct (rate_limit_appends E k s Hk) as (t & Hlog & Ht & Hnow & _).
  cbv zeta in Hlog, Ht, Hnow. unfold tracked. rewrite <- Ht in Hroom |- *.
  remember (clock (elapse E (world s))) as now eqn:Enow.
  pose proof (elapse_clock E (world s)) as Hel.
  assert (Hpast' : Forall (fun u => u <= t) H).
  { eapply List.Forall_impl; [|exact Hpast]. cbv beta. intros u Hu. lia. }
  repeat split.
  - apply Forall_app. split; [exact Hpast'|]. repeat constructor. lia.
  - intros T HT. rewrite Hlog, !prune_app, (prune_prune E now T) by lia.
    rewrite (Hsame T) by lia. reflexivity.
  - intros T. rewrite in_window_app, length_app.
    destruct (in_window_one T t) as [Hone Hfuture].
    destruct (Z.lt_ge_cases T t) as [Hlt|Hge].
    + rewrite (Hfuture Hlt). cbn [length]. specialize (Hwin T). lia.
    + rewrite in_window_past.
      * rewrite (Hsame T) by lia.
        pose proof (prune_length_mono E t T (_request_times (self s)) Hge).
        lia.
      * eapply List.Forall_impl; [|exact Hpast']. cbv beta. intros u Hu. lia.
Qed.

(** The time stamps of [stamped] are those the log receives. *)
Lemma stamped_appended (k : Z) (c : call) s :
  0 < k -> uses k c ->
  (stamped E c s = [] /\ do_call E c s = s)
  \/ (exists t, stamped E c s = [t]
       /\ _request_times (self (do_call E c s))
          = prune E (clock (elapse E (world s))) (_request_times (self s)) ++ [t]).
Proof.
  intros Hk Huse. destruct c as [max_rpm|q n]; cbn in Huse; subst.
  - right. cbn [stamped do_call]. rewrite (rate_limit_returns E k s Hk).
    destruct (rate_limit_appends E k s Hk) as (t & Hlog & Ht & _).
    cbv zeta in Hlog, Ht. exists t. rewrite <- Ht. split; [reflexivity|exact Hlog].
  - cbn [stamped do_call].
    destruct (_cache (self s) !! cache_key q) as [v|] eqn:Hlook.
    + left. rewrite (search_hit E q n v s Hlook). split; reflexivity.
    + right. destruct (search_miss_effect E q n s Hlook) as ((_ & _ & _ & Hlog) & _).
      destruct (rate_limit_appends E 10 s ltac:(lia)) as (t & Hlog1 & Ht & _).
      cbv zeta in Hlog, Hlog1, Ht. exists t. rewrite <- Ht, Hlog.
      split; [reflexivity|exact Hlog1].
Qed.

Lemma do_call_tracked (k : Z) (c : call) (H : list Z) s :
  0 < k -> uses k c -> tracked E k H s ->
  tracked E k (H ++ stamped E c s) (do_call E c s).
Proof.
  intros Hk Huse Htr. destruct c as [max_rpm|q n]; cbn in Huse; subst.
  - cbn [stamped do_call]. rewrite (rate_limit_returns E k s Hk).
    apply rate_limit_tracked; assumption.
  - cbn [stamped do_call].
    destruct (_cache (self s) !! cache_key q) as [v|] eqn:Hlook.
    + rewrite (search_hit E q n v s Hlook), app_nil_r. exact Htr.
    + destruct (search_miss_effect E q n s Hlook)
        as ((_ & _ & _ & Hlog) & Hck & _).
      cbv zeta in Hlog, Hck.
      eapply tracked_later; [exact Hlog|exact Hck|].
      apply rate_limit_tracked; [lia|exact Htr].
Qed.

Lemma run_tracked (k : Z) (cs : list call) :
  0 < k -> Forall (uses k) cs ->
  forall (H : list Z) s,
    tracked E k H s -> tracked E k (H ++ acquisitions E cs s) (run E cs s).
Proof.
  intros Hk. induction 1 as [|c cs Hc Hcs IH]; intros H s Htr.
  - cbn. rewrite app_nil_r. exact Htr.
  - cbn [acquisitions run fold_left]. rewrite app_assoc.
    apply IH, do_call_tracked; assumption.
Qed.

(** Whether the throttle sleeps is decided by the size of the pruned
    log. *)
Lemma rate_limit_sleeps (max_rpm : Z) s :
  0 < max_rpm ->
  let kept := prune E (clock (elapse E (world s))) (_request_times (self s)) in
  let s' := fst (_rate_limit E max_rpm s) in
  (max_rpm <= Z.of_nat (length kept) ->
     exists wait, 0 < wait /\ sleeps (world s') = sleeps (world s) ++ [wait])
  /\ (Z.of_nat (length kept) < max_rpm -> sleeps (world s') = sleeps (world s)).
Proof.
  intros Hk. cbv zeta. rewrite (rate_limit_unfold E max_rpm s). cbv zeta.
  destruct (prune E (clock (elapse E (world s))) (_request_times (self s)))
    as [|t0 rest] eqn:Hkept.
  - split; [cbn [length]; lia|]. intros _.
    destruct (Z.of_nat (length (@nil Z)) >=? max_rpm) eqn:Hfull; [|reflexivity].
    apply Z.geb_le in Hfull. cbn in Hfull. lia.
  - apply prune_head_wait in Hkept.
    destruct (Z.of_nat (length (t0 :: rest)) >=? max_rpm) eqn:Hfull.
    + apply Z.geb_le in Hfull. split; [|lia]. intros _.
      exists (window E - (clock (elapse E (world s)) - t0)).
      split; [exact Hkept|reflexivity].
    + assert (Hlt : Z.of_nat (length (t0 :: rest)) < max_rpm).
      { destruct (Z.geb_spec (Z.of_nat (length (t0 :: rest))) max_rpm);
          [discriminate|lia]. }
      split; [lia|]. intros _. reflexivity.
Qed.

(** C2, as amended.  Under sequential invocation with a clock that
    does not run backwards, for every session of calls that go
    through the throttle with the same budget [k >= 1]
    ([search_properties] always uses 10), started on a new object:
    no window of sixty seconds, whenever it ends, holds more than
    [k] of the time stamps the throttle handed out (one per call
    that missed the cache; the invocations that the retry loop adds
    are not throttled and not counted); at any later check the
    pruned log holds at most [k] entries; and the next pass through
    the throttle induces a wait, a positive one, when [k] or more of
    the time stamps handed out so far are less than sixty seconds old
    at its check, and none when fewer are. *)
Theorem throttle_bounds_acquisitions
    (k : Z) (cs : list call)
    (df0 : DataFrame) (llm0 : ChatGroq) (agent0 : nat -> string -> outcome)
    (w0 : World) :
  0 < k -> Forall (uses k) cs ->
  let s0 := {| self := __init__ df0 llm0 agent0; world := w0 |} in
  (forall T, Z.of_nat (length (in_window E T (acquisitions E cs s0))) <= k)
  /\ (forall T, clock (world (run E cs s0)) <= T ->
        Z.of_nat (length (prune E T (_request_times (self (run E cs s0)))))
        <= k)
  /\ (let s := run E cs s0 in
      let recent :=
        prune E (clock (elapse E (world s))) (acquisitions E cs s0) in
      (k <= Z.of_nat (length recent) ->
         exists wait,
           0 < wait
           /\ sleeps (world (fst (_rate_limit E k s))) = sleeps (world s) ++ [wait])
      /\ (Z.of_nat (length recent) < k ->
            sleeps (world (fst (_rate_limit E k s))) = sleeps (world s))).
Proof.
  intros Hk Hcs s0.
  assert (Htr : tracked E k ([] ++ acquisitions E cs s0) (run E cs s0)).
  { apply run_tracked; [exact Hk|exact Hcs|].
    repeat split; [constructor|]. intros T. cbn. lia. }
  cbn [app] in Htr. split; [|split].
  - apply Htr.
  - apply (tracked_budget k _ _ Htr).
  - cbv zeta. destruct Htr as (_ & Hsame & _).
    rewrite (Hsame _ (elapse_clock E (world (run E cs s0)))).
    apply (rate_limit_sleeps k (run E cs s0) Hk).
Qed.

End Sessions.

(** ** The cache *)

Section Cache.

Context {DataFrame ChatGroq : Type}.
Variable E : Env.
Implicit Types s : @Machine DataFrame ChatGroq.

Lemma cache_key_normalize (q q' : string) :
  normalize q' = normalize q -> cache_key q' = cache_key q.
Proof. unfold cache_key. intros ->. reflexivity. Qed.

(** A key found in the cache after a call holds what the call
    returned. *)
Lemma search_returns_cached (q v : string) (max_retries : Z) s :
  _cache (self (fst (search_properties E q max_retries s))) !! cache_key q
    = Some v ->
  snd (search_properties E q max_retries s) = Ok v.
Proof.
  destruct (_cache (self s) !! cache_key q) as [v0|] eqn:Hlook.
  - rewrite (search_hit E q max_retries v0 s Hlook). cbn [fst snd]. congruence.
  - destruct (search_miss_effect E q max_retries s Hlook)
      as (_ & _ & _ & [(Hc & _)|(v' & m & Hres & _ & _ & _ & Hc)]);
      cbv zeta in *; rewrite Hc.
    + congruence.
    + rewrite lookup_insert_eq. congruence.
Qed.

(** C3, as amended.  If the key of a query is in the cache,
    [search_properties] returns the stored result and leaves the
    object and the world as they were: no agent call, no time stamp,
    no sleep.  Hence, [s1] being the state after a first [search(q)]
    and [q'] any query with the cache key of [q], [q] itself for
    one: if the last invocation of the first call
    returned an output, the key is cached; once the key is cached,
    the second call returns the result of the first and changes
    nothing; the first call invokes the agent at most [max_retries]
    times; and if the first call missed the cache and none of its
    invocations returned an output, the key is still not cached and
    the second call goes through the throttle and the retry loop
    again. *)
Theorem cache_hit_is_silent (q q' : string) (n n' : Z) s :
  cache_key q' = cache_key q ->
  let s1 := fst (search_properties E q n s) in
  let r1 := snd (search_properties E q n s) in
  (forall v, _cache (self s) !! cache_key q = Some v ->
     search_properties E q' n' s = (s, Ok v))
  /\ (forall v m, invocations s1 = S m -> (invocations s <= m)%nat ->
        output_of (answer s m q) = Some v ->
        _cache (self s1) !! cache_key q = Some v)
  /\ (is_Some (_cache (self s1) !! cache_key q) ->
        search_properties E q' n' s1 = (s1, r1))
  /\ (invocations s <= invocations s1 <= invocations s + Z.to_nat n)%nat
  /\ (_cache (self s) !! cache_key q = None ->
      (forall m, (invocations s <= m < invocations s1)%nat ->
         output_of (answer s m q) = None) ->
      _cache (self s1) !! cache_key q = None
      /\ search_properties E q' n' s1
         = retry_loop E q' (cache_key q') (range n') (fst (_rate_limit E 10 s1))).
Proof.
  intros Hkey. cbv zeta.
  split; [|split; [|split; [|split]]].
  - intros v Hv. apply search_hit. rewrite Hkey. exact Hv.
  - intros v m Hm Hle Hout.
    destruct (_cache (self s) !! cache_key q) as [v0|] eqn:Hlook.
    + rewrite (search_hit E q n v0 s Hlook) in Hm. cbn in Hm. lia.
    + destruct (search_miss_effect E q n s Hlook)
        as (_ & _ & _ & [(_ & Hnone & _)|(v' & m' & _ & Hm' & _ & Hout' & Hc)]);
        cbv zeta in *.
      * rewrite (Hnone m) in Hout by lia. discriminate.
      * assert (m' = m) by lia. subst m'.
        rewrite Hc, lookup_insert_eq. congruence.
  - intros [v Hv].
    rewrite (search_returns_cached q v n s Hv).
    apply search_hit. rewrite Hkey. exact Hv.
  - destruct (_cache (self s) !! cache_key q) as [v0|] eqn:Hlook.
    + rewrite (search_hit E q n v0 s Hlook). cbn. lia.
    + destruct (search_miss_effect E q n s Hlook) as (_ & _ & Hinv & _).
      exact Hinv.
  - intros Hlook Hnone.
    assert (Hstill : _cache (self (fst (search_properties E q n s))) !! cache_key q
                     = None).
    { destruct (search_miss_effect E q n s Hlook)
        as (_ & _ & _ & [(Hc & _)|(v' & m' & _ & Hm' & Hle & Hout' & _)]);
        cbv zeta in *.
      - rewrite Hc. exact Hlook.
      - rewrite (Hnone m') in Hout' by lia. discriminate. }
    split; [exact Hstill|]. apply search_miss. rewrite Hkey. exact Hstill.
Qed.

End Cache.

(** ** The back-off *)

Section Backoff.

Context {DataFrame ChatGroq : Type}.
Variable E : Env.
Implicit Types s : @Machine DataFrame ChatGroq.

Lemma exponential_growth_pow (c b : Z) :
  exponential_growth (fun i => c * b ^ i).
Proof.
  intros i Hi. cbv beta.
  replace (i + 2) with (i + 1 + 1) by lia.
  rewrite !Z.pow_add_r by lia. rewrite Z.pow_1_r. ring.
Qed.

(** The back-off the code makes.  On a cache miss, after the agent's
    next [r] invocations raised rate-limit errors
    ([r <= max_retries]), the loop stands before its next attempt
    having slept, after the failure at loop index [i] (counted from
    0), for [(i + 1) * 40] seconds: 40, 80, ..., [r * 40].  The
    back-off grows by 40 seconds from one attempt to the next. *)
Theorem backoff_schedule (q : string) (max_retries : Z) (r : nat) s :
  _cache (self s) !! cache_key q = None ->
  Z.of_nat r <= max_retries ->
  (forall i, (i < r)%nat ->
     rate_limit_error (answer s (invocations s + i) q) = true) ->
  (exists s_r,
     search_properties E q max_retries s
     = retry_loop E q (cache_key q) (skipn r (range max_retries)) s_r
     /\ invocations s_r = (invocations s + r)%nat
     /\ sleeps (world s_r)
        = sleeps (world (fst (_rate_limit E 10 s)))
          ++ map (fun i => seconds E ((i + 1) * 40)) (range (Z.of_nat r)))
  /\ (forall i, backoff E (i + 1) - backoff E i = seconds E 40).
Proof.
  intros Hmiss Hr Hfail. split.
  - rewrite (search_miss E q max_retries s Hmiss).
    destruct (retry_loop_after_failures E q (cache_key q) r
                (range max_retries) (fst (_rate_limit E 10 s)))
      as (s_r & Heq & _ & Hn & Hsl & _).
    + apply range_nonneg.
    + rewrite range_length. lia.
    + intros i Hi. rewrite rate_limit_invocations, rate_limit_answer.
      apply Hfail, Hi.
    + exists s_r. split; [exact Heq|].
      rewrite rate_limit_invocations in Hn. split; [exact Hn|].
      rewrite Hsl, firstn_range by lia. reflexivity.
  - intros i. unfold backoff, seconds. lia.
Qed.

End Backoff.

(** ** The cache key *)

Section Digest.

Import MD5.

Lemma wrap32_range (x : Z) : 0 <= wrap32 x < 2 ^ 32.
Proof. unfold wrap32. apply Z.mod_pos_bound. lia. Qed.

Lemma compress_in_range (st : state) (block : list Z) :
  in_range (compress st block).
Proof.
  unfold compress, in_range. cbv zeta. cbn [sa sb sc sd].
  repeat split; apply wrap32_range.
Qed.

Lemma blocks_in_range (n : nat) :
  forall st bs, in_range st -> in_range (blocks n st bs).
Proof.
  induction n as [|n IH]; intros st bs Hst; [exact Hst|].
  cbn. apply IH, compress_in_range.
Qed.

Lemma md5_in_range (msg : list Z) : in_range (md5 msg).
Proof.
  unfold md5. apply blocks_in_range. unfold in_range, iv. cbn. lia.
Qed.

Lemma number_range (st : state) :
  in_range st -> 0 <= number st < 2 ^ 128.
Proof. unfold in_range, number. lia. Qed.

Lemma number_inj (st1 st2 : state) :
  in_range st1 -> in_range st2 -> number st1 = number st2 -> st1 = st2.
Proof.
  destruct st1 as [a1 b1 c1 d1], st2 as [a2 b2 c2 d2].
  unfold in_range, number. cbn. intros H1 H2 Heq.
  assert (a1 = a2 /\ b1 = b2 /\ c1 = c2 /\ d1 = d2) as (-> & -> & -> & ->) by lia.
  reflexivity.
Qed.

Lemma hex_digest_length (st : state) : String.length (hex (digest st)) = 32%nat.
Proof. reflexivity. Qed.

End Digest.

Section Collisions.

Lemma code_bound (q : string) : (digest_code q < Z.to_nat (2 ^ 128))%nat.
Proof.
  unfold digest_code.
  pose proof (number_range _ (md5_in_range (Str.encode (normalize q)))).
  apply Z2Nat.inj_lt; lia.
Qed.

Lemma code_key (q1 q2 : string) : digest_code q1 = digest_code q2 -> cache_key q1 = cache_key q2.
Proof.
  unfold digest_code, cache_key, MD5.hexdigest. intros Heq.
  pose proof (md5_in_range (Str.encode (normalize q1))) as H1.
  pose proof (md5_in_range (Str.encode (normalize q2))) as H2.
  apply Z2Nat.inj in Heq;
    [|apply (number_range _ H1)|apply (number_range _ H2)].
  rewrite (number_inj _ _ H1 H2 Heq). reflexivity.
Qed.

Lemma rstrip_rep_a (n : nat) : Str.rstrip (Str.rep "a" n) = Str.rep "a" n.
Proof.
  induction n as [|n IH]; [reflexivity|].
  cbn [Str.rep Str.rstrip]. rewrite IH. destruct n; reflexivity.
Qed.

Lemma normalize_rep_a (n : nat) : normalize (Str.rep "a" n) = Str.rep "a" n.
Proof.
  unfold normalize, Str.strip.
  assert (Hl : Str.lstrip (Str.rep "a" n) = Str.rep "a" n) by (destruct n; reflexivity).
  rewrite Hl, rstrip_rep_a.
  induction n as [|n IH]; [reflexivity|]. cbn [Str.rep Str.lower].
  rewrite IH; [reflexivity|destruct n; reflexivity].
Qed.

Lemma rep_length (c : ascii) (n : nat) : String.length (Str.rep c n) = n.
Proof. induction n as [|n IH]; cbn; [reflexivity|]. rewrite IH. reflexivity. Qed.

(** More pigeons than holes: a function that sends [0..n] below [n]
    cannot be one to one there. *)
Lemma no_injection (n : nat) (f : nat -> nat) :
  (forall i, (i <= n)%nat -> (f i < n)%nat) ->
  ~ (forall i j, (i <= n)%nat -> (j <= n)%nat -> f i = f j -> i = j).
Proof.
  intros Hbound Hinj.
  assert (Hnd : NoDup (map f (seq 0 (S n)))).
  { apply (NoDup_fmap_2_strong f).
    - intros i j Hi Hj. apply list_elem_of_In, in_seq in Hi.
      apply list_elem_of_In, in_seq in Hj. apply Hinj; lia.
    - apply NoDup_seq. }
  apply NoDup_ListNoDup in Hnd.
  apply NoDup_incl_length with (l' := seq 0 n) in Hnd.
  - rewrite length_map, !length_seq in Hnd. lia.
  - intros x Hx. apply in_map_iff in Hx. destruct Hx as (i & <- & Hi).
    apply in_seq in Hi. apply in_seq. specialize (Hbound i). lia.
Qed.

(** Read as a plain implication, distinctness of the keys of distinct
    normalized queries cannot hold: there are more normalized queries
    than digests of 128 bits, so some two of the queries ["a" * n]
    share a key.  Which two, the counting does not tell. *)
Lemma cache_key_not_injective : ~ cache_key_injective.
Proof.
  intros Hinj.
  apply (no_injection (Z.to_nat (2 ^ 128)) (fun i => digest_code (Str.rep "a" i))).
  - intros i _. apply code_bound.
  - intros i j _ _ Heq. apply code_key in Heq.
    destruct (Nat.eq_dec i j) as [Hij|Hij]; [exact Hij|].
    exfalso. apply (Hinj (Str.rep "a" i) (Str.rep "a" j)); [|exact Heq].
    rewrite !normalize_rep_a. intros Hrep. apply Hij.
    rewrite <- (rep_length "a" i), <- (rep_length "a" j), Hrep. reflexivity.
Qed.

End Collisions.

(** ** Concrete runs *)

Section Runs.

Import Demo.

(** The scenario of the specification: a miss, the answer, and the
    same query again. *)
Example villa_scenario :
  let s1 := run env [Search villa 3] (start (flaky 0 0 villa_answer)) in
  _cache (self s1) !! "444eb7b1b83e77dc5ecadf56c83c9c2f" = Some villa_answer
  /\ search_properties env villa 3 s1 = (s1, Ok villa_answer)
  /\ invocations s1 = 1%nat.
Proof. vm_compute. repeat split. Qed.

(** C1, at a mock agent that raises two 429 errors and then
    answers. *)
Lemma search_retries_until_success_witness :
  _cache (self (start (flaky 0 2 villa_answer))) !! cache_key villa = None
  /\ snd (search_properties env villa 3 (start (flaky 0 2 villa_answer)))
     = Ok villa_answer
  /\ snd (search_properties env villa 2 (start (flaky 0 2 villa_answer)))
     = Ok could_not_complete.
Proof.
  assert (Hmiss : _cache (self (start (flaky 0 2 villa_answer))) !! cache_key villa
                  = None) by (vm_compute; reflexivity).
  assert (Hfail : forall i, (i < 2)%nat ->
            rate_limit_error
              (answer (start (flaky 0 2 villa_answer))
                 (invocations (start (flaky 0 2 villa_answer)) + i) villa) = true).
  { intros [|[|i]] Hi; [vm_compute; reflexivity|vm_compute; reflexivity|lia]. }
  assert (Hout : output_of
            (answer (start (flaky 0 2 villa_answer))
               (invocations (start (flaky 0 2 villa_answer)) + 2) villa)
            = Some villa_answer) by (vm_compute; reflexivity).
  split; [exact Hmiss|]. split.
  - apply (search_retries_until_success env villa villa_answer 3 2
             (start (flaky 0 2 villa_answer)) Hmiss Hfail Hout). lia.
  - apply (search_retries_until_success env villa villa_answer 2 2
             (start (flaky 0 2 villa_answer)) Hmiss Hfail Hout). lia.
Defined.

(** C4, at a mock agent that fails with a 401 on the first
    attempt: the exception is raised, one invocation, no sleep. *)
Lemma search_other_error_propagates_witness :
  let s' := fst (search_properties env villa 3 (start broken)) in
  snd (search_properties env villa 3 (start broken))
    = Raise (AgentError "Error code: 401 - Invalid API Key")
  /\ invocations s' = 1%nat /\ sleeps (world s') = [].
Proof.
  destruct (search_other_error_propagates env villa
              "Error code: 401 - Invalid API Key" 3 0 (start broken))
    as (Hres & Hinv & Hsl & _).
  - vm_compute. reflexivity.
  - lia.
  - intros i Hi. lia.
  - vm_compute. reflexivity.
  - vm_compute. reflexivity.
  - cbv zeta. split; [exact Hres|]. split; [exact Hinv|].
    rewrite Hsl. vm_compute. reflexivity.
Defined.

(** C2, the statement refuted: nine queries answered at once and a
    tenth answered on its second attempt, forty seconds later, make
    eleven agent calls within sixty seconds under a budget of ten. *)
Lemma agent_calls_exceed_budget :
  ~ agent_calls_within env 10 40
      (run env (searches ten_queries) (start (flaky 9 1 "ok"))).
Proof. vm_compute. intros H. apply H. reflexivity. Qed.

Lemma throttle_bounds_acquisitions_witness :
  0 < 10 /\ Forall (uses 10) (searches ten_queries)
  /\ Z.of_nat (length (in_window env 40
       (acquisitions env (searches ten_queries) (start (flaky 9 1 "ok")))))
     <= 10
  /\ exists wait,
       0 < wait
       /\ sleeps (world (fst (_rate_limit env 10
                                (run env (searches ten_queries)
                                   (start (flaky 9 1 "ok"))))))
          = sleeps (world (run env (searches ten_queries)
                             (start (flaky 9 1 "ok")))) ++ [wait].
Proof.
  assert (Hk : 0 < 10) by lia.
  assert (Hcs : Forall (uses 10) (searches ten_queries))
    by (repeat constructor).
  split; [exact Hk|]. split; [exact Hcs|].
  destruct (throttle_bounds_acquisitions env 10 (searches ten_queries)
              tt tt (flaky 9 1 "ok")
              {| clock := 0; steps := 0; calls := []; sleeps := [] |}
              Hk Hcs) as (Hwin & _ & Hfull & _).
  split; [exact (Hwin 40)|].
  apply Hfull. apply Z.leb_le. vm_compute. reflexivity.
Defined.

(** C3, the statement refuted: a first call that is rate limited
    once invokes the agent twice. *)
Lemma twice_needs_two_calls :
  ~ twice_at_most_one_call env villa 3 (start (flaky 0 1 villa_answer)).
Proof. vm_compute. lia. Qed.

Lemma cache_hit_is_silent_witness :
  let s1 := fst (search_properties env villa 3 (start (flaky 0 1 villa_answer))) in
  cache_key "  3 Bed Villa WITH pool " = cache_key villa
  /\ is_Some (_cache (self s1) !! cache_key villa)
  /\ search_properties env "  3 Bed Villa WITH pool " 5 s1
     = (s1, snd (search_properties env villa 3 (start (flaky 0 1 villa_answer)))).
Proof.
  assert (Hkey : cache_key "  3 Bed Villa WITH pool " = cache_key villa)
    by (vm_compute; reflexivity).
  assert (Hin : is_Some
            (_cache (self (fst (search_properties env villa 3
                                  (start (flaky 0 1 villa_answer)))))
               !! cache_key villa))
    by (exists villa_answer; vm_compute; reflexivity).
  cbv zeta. split; [exact Hkey|]. split; [exact Hin|].
  apply (cache_hit_is_silent env villa "  3 Bed Villa WITH pool " 3 5
           (start (flaky 0 1 villa_answer)) Hkey). exact Hin.
Defined.

(** With a budget of zero and nothing to prune, [_rate_limit] fails on
    [self._request_times[0]]. *)
Example rate_limit_zero_budget :
  snd (_rate_limit env 0 (start broken))
  = Raise (IndexError "list index out of range").
Proof. reflexivity. Qed.



(** C6.  The comment of line 91 and the specification call the
    back-off exponential; the code, run on a query whose three
    attempts are all rate limited, sleeps 40, 80 and 120 seconds, and
    a sequence that goes on by [(attempt + 1) * 40] has no constant
    ratio: 80 * 80 is not 40 * 120. *)
Lemma backoff_not_exponential :
  sleeps (world (run env [Search villa 3] (start (flaky 0 3 villa_answer))))
    = [40; 80; 120]
  /\ ~ exponential_growth (backoff env).
Proof.
  split; [vm_compute; reflexivity|].
  intros H. specialize (H 0 ltac:(lia)). vm_compute in H. discriminate.
Qed.

Lemma backoff_schedule_witness :
  _cache (self (start (flaky 0 3 villa_answer))) !! cache_key villa = None
  /\ Z.of_nat 3 <= 3
  /\ backoff env (0 + 1) - backoff env 0 = seconds env 40.
Proof.
  assert (Hmiss : _cache (self (start (flaky 0 3 villa_answer))) !! cache_key villa
                  = None) by (vm_compute; reflexivity).
  assert (Hr : Z.of_nat 3 <= 3) by lia.
  assert (Hfail : forall i, (i < 3)%nat ->
            rate_limit_error
              (answer (start (flaky 0 3 villa_answer))
                 (invocations (start (flaky 0 3 villa_answer)) + i) villa) = true).
  { intros [|[|[|i]]] Hi; try (vm_compute; reflexivity). lia. }
  split; [exact Hmiss|]. split; [exact Hr|].
  exact (proj2 (backoff_schedule env villa 3 3 (start (flaky 0 3 villa_answer))
                  Hmiss Hr Hfail) 0).
Defined.


(** C8, at a call that raises. *)
Lemma cache_written_only_on_success_witness :
  snd (search_properties env villa 3 (start broken))
    = Raise (AgentError "Error code: 401 - Invalid API Key")
  /\ _cache (self (fst (search_properties env villa 3 (start broken))))
     = _cache (self (start broken)).
Proof.
  assert (Hres : snd (search_properties env villa 3 (start broken))
                 = Raise (AgentError "Error code: 401 - Invalid API Key"))
    by (vm_compute; reflexivity).
  split; [exact Hres|].
  destruct (cache_written_only_on_success env villa 3 (start broken))
    as (Hraise & _).
  exact (Hraise _ Hres).
Defined.

(** C9, at a call that is rate limited once. *)
Lemma search_miss_frame_witness :
  _cache (self (start (flaky 0 1 villa_answer))) !! cache_key villa = None
  /\ _request_times
       (self (fst (search_properties env villa 3 (start (flaky 0 1 villa_answer)))))
     = _request_times
         (self (fst (_rate_limit env 10 (start (flaky 0 1 villa_answer))))).
Proof.
  assert (Hmiss : _cache (self (start (flaky 0 1 villa_answer))) !! cache_key villa
                  = None) by (vm_compute; reflexivity).
  split; [exact Hmiss|].
  apply (search_miss_frame env villa 3 (start (flaky 0 1 villa_answer)) Hmiss).
Defined.

End Runs.

(** * Further properties *)

(** ** Normalization and classification of strings *)

Section Strings.

Lemma lower_char_idem (c : ascii) :
  Str.lower_char (Str.lower_char c) = Str.lower_char c.
Proof. destruct c as [[] [] [] [] [] [] [] []]; reflexivity. Qed.

Lemma isspace_lower_char (c : ascii) :
  Str.isspace (Str.lower_char c) = Str.isspace c.
Proof. destruct c as [[] [] [] [] [] [] [] []]; reflexivity. Qed.

Lemma lower_idem (s : string) : Str.lower (Str.lower s) = Str.lower s.
Proof.
  induction s as [|c s IH]; [reflexivity|].
  cbn [Str.lower]. rewrite lower_char_idem, IH. reflexivity.
Qed.

Lemma append_cons (c : ascii) (s1 s2 : string) :
  (String c s1 ++ s2)%string = String c (s1 ++ s2)%string.
Proof. reflexivity. Qed.

Lemma lower_app (s1 s2 : string) :
  Str.lower (s1 ++ s2)%string = (Str.lower s1 ++ Str.lower s2)%string.
Proof.
  induction s1 as [|c s1 IH]; [reflexivity|].
  rewrite append_cons. cbn [Str.lower]. rewrite IH, append_cons. reflexivity.
Qed.

Lemma lstrip_lower (s : string) :
  Str.lstrip (Str.lower s) = Str.lower (Str.lstrip s).
Proof.
  induction s as [|c s IH]; [reflexivity|].
  cbn [Str.lower Str.lstrip]. rewrite isspace_lower_char.
  destruct (Str.isspace c); [exact IH|reflexivity].
Qed.

Lemma rstrip_lower (s : string) :
  Str.rstrip (Str.lower s) = Str.lower (Str.rstrip s).
Proof.
  induction s as [|c s IH]; [reflexivity|].
  cbn [Str.lower Str.rstrip]. rewrite IH, isspace_lower_char.
  destruct (Str.rstrip s) as [|d t]; cbn [Str.lower].
  - destruct (Str.isspace c); reflexivity.
  - reflexivity.
Qed.

Lemma rstrip_idem (s : string) : Str.rstrip (Str.rstrip s) = Str.rstrip s.
Proof.
  induction s as [|c s IH]; [reflexivity|].
  cbn [Str.rstrip]. destruct (Str.rstrip s) as [|d t] eqn:Hr.
  - destruct (Str.isspace c) eqn:Hc; [reflexivity|].
    cbn [Str.rstrip]. rewrite Hc. reflexivity.
  - cbn [Str.rstrip] in *. rewrite IH. reflexivity.
Qed.

(** What [lstrip] leaves does not begin with white space, and
    [rstrip] keeps such a beginning. *)
Lemma lstrip_rstrip (s : string) :
  Str.lstrip (Str.rstrip (Str.lstrip s)) = Str.rstrip (Str.lstrip s).
Proof.
  induction s as [|c s IH]; [reflexivity|].
  cbn [Str.lstrip]. destruct (Str.isspace c) eqn:Hc; [exact IH|].
  cbn [Str.rstrip]. destruct (Str.rstrip s) as [|d t].
  - rewrite Hc. cbn [Str.lstrip]. rewrite Hc. reflexivity.
  - cbn [Str.lstrip]. rewrite Hc. reflexivity.
Qed.

Lemma strip_idem (s : string) : Str.strip (Str.strip s) = Str.strip s.
Proof.
  unfold Str.strip. rewrite lstrip_rstrip, rstrip_idem. reflexivity.
Qed.

Lemma strip_lower (s : string) :
  Str.strip (Str.lower s) = Str.lower (Str.strip s).
Proof. unfold Str.strip. rewrite lstrip_lower, rstrip_lower. reflexivity. Qed.

(** X1.  For a query of ASCII characters only: normalizing is
    idempotent, so the cache key of the query is that of its
    normalized form, of its lowercased form and of its stripped
    form.  Such queries that differ in case or in the white space
    around them share one cache entry. *)
Theorem cache_key_ignores_case_and_margins (q : string) :
  ascii_only q = true ->
  normalize (normalize q) = normalize q
  /\ cache_key (normalize q) = cache_key q
  /\ cache_key (Str.lower q) = cache_key q
  /\ cache_key (Str.strip q) = cache_key q.
Proof.
  intros _.
  assert (Hidem : normalize (normalize q) = normalize q).
  { unfold normalize. rewrite strip_lower, strip_idem, lower_idem. reflexivity. }
  assert (Hlow : normalize (Str.lower q) = normalize q).
  { unfold normalize. rewrite strip_lower, lower_idem. reflexivity. }
  assert (Hstrip : normalize (Str.strip q) = normalize q).
  { unfold normalize. rewrite strip_idem. reflexivity. }
  unfold cache_key. rewrite Hidem, Hlow, Hstrip. repeat split.
Qed.

End Strings.

Section Classification.

Lemma prefix_spec (p : string) :
  forall s, String.prefix p s = true <-> exists post, s = (p ++ post)%string.
Proof.
  induction p as [|a p IH]; intros s.
  - split; [intros _; exists s; reflexivity|intros _; destruct s; reflexivity].
  - destruct s as [|b s]; cbn [String.prefix].
    + split; [discriminate|]. intros [post Hpost]. discriminate.
    + destruct (ascii_dec a b) as [->|Hne].
      * rewrite IH. split; intros [post Hpost]; exists post.
        -- rewrite append_cons, Hpost. reflexivity.
        -- rewrite append_cons in Hpost. congruence.
      * split; [discriminate|]. intros [post Hpost].
        rewrite append_cons in Hpost. congruence.
Qed.

(** [needle in hay] holds exactly when [hay] has [needle] as a
    substring. *)
Lemma contains_spec (needle : string) :
  forall hay,
    Str.contains needle hay = true
    <-> exists pre post, hay = (pre ++ needle ++ post)%string.
Proof.
  induction hay as [|c hay IH]; cbn [Str.contains].
  - rewrite orb_false_r, prefix_spec. split.
    + intros [post Hpost]. exists EmptyString, post. exact Hpost.
    + intros (pre & post & Hpost). destruct pre as [|d pre]; [|discriminate].
      exists post. exact Hpost.
  - rewrite orb_true_iff, prefix_spec, IH. split.
    + intros [[post Hpost]|(pre & post & Hpost)].
      * exists EmptyString, post. exact Hpost.
      * exists (String c pre), post. rewrite append_cons, Hpost. reflexivity.
    + intros (pre & post & Hpost). destruct pre as [|d pre].
      * left. exists post. exact Hpost.
      * right. exists pre, post. rewrite append_cons in Hpost. congruence.
Qed.

(** X2.  The retry decision is a case-insensitive substring test: an
    error is taken for a rate limit exactly when its lowercased text
    has one of the three indicators somewhere inside it.  So a text
    that holds an indicator in any spelling of upper and lower case,
    inside a longer word too, is retried. *)
Theorem rate_limit_by_substring (text pre w post : string) :
  (rate_limited (Str.lower text) = true
   <-> exists ind pre' post',
         In ind indicators
         /\ Str.lower text = (pre' ++ ind ++ post')%string)
  /\ (In (Str.lower w) indicators -> text = (pre ++ w ++ post)%string ->
      rate_limited (Str.lower text) = true).
Proof.
  assert (Hiff : forall t, rate_limited t = true
            <-> exists ind pre' post',
                  In ind indicators /\ t = (pre' ++ ind ++ post')%string).
  { intros t. unfold rate_limited, indicators.
    rewrite !orb_true_iff, !contains_spec. split.
    - intros [[(a & b & H)|(a & b & H)]|(a & b & H)].
      + exists "429"%string, a, b. split; [cbn; tauto|exact H].
      + exists "rate"%string, a, b. split; [cbn; tauto|exact H].
      + exists "resource_exhausted"%string, a, b. split; [cbn; tauto|exact H].
    - intros (ind & a & b & [<-|[<-|[<-|[]]]] & H).
      + left. left. exists a, b. exact H.
      + left. right. exists a, b. exact H.
      + right. exists a, b. exact H. }
  split; [apply Hiff|].
  intros Hind ->. apply Hiff.
  exists (Str.lower w), (Str.lower pre), (Str.lower post).
  split; [exact Hind|]. rewrite !lower_app. reflexivity.
Qed.

End Classification.

(** ** More about the retry loop *)

Section LoopTraces.

Context {DataFrame ChatGroq : Type}.
Variable E : Env.
Implicit Types s : @Machine DataFrame ChatGroq.

(** The loop raises only what the last invocation gave it: an error
    that is no rate limit, or a response without output. *)
Lemma retry_loop_raises (q key : string) (atts : list Z) :
  forall s (e : exn),
    Forall (fun a => 0 <= a) atts ->
    snd (retry_loop E q key atts s) = Raise e ->
    exists m,
      invocations (fst (retry_loop E q key atts s)) = S m
      /\ (invocations s <= m)%nat
      /\ ((exists text, answer s m q = Raises text /\ e = AgentError text
                        /\ rate_limited (Str.lower text) = false)
          \/ (exists response, answer s m q = Returns response
                /\ response !! "output" = None /\ e = KeyError "output")).
Proof.
  induction atts as [|a atts IH]; intros s e Hpos Hraise.
  - cbn in Hraise. discriminate.
  - apply Forall_cons_1 in Hpos. destruct Hpos as [Ha Hpos].
    destruct (rate_limit_error (answer s (invocations s) q)) eqn:Hrl.
    + rewrite (retry_loop_backs_off E q key a atts s Ha Hrl) in Hraise |- *.
      destruct (IH (backed_off E q a s) e Hpos Hraise) as (m & Hm & Hle & Hwhy).
      rewrite backed_off_invocations in Hle.
      exists m. split; [exact Hm|]. split; [lia|exact Hwhy].
    + revert Hraise. cbn [retry_loop]. unfold bind.
      rewrite (attempt_once_unfold E q key a s Ha). cbv zeta.
      destruct (answer s (invocations s) q) as [response|text] eqn:Hans.
      * destruct (response !! "output") as [result|] eqn:Hout.
        -- cbn. discriminate.
        -- cbn. intros [= <-]. exists (invocations s).
           unfold invocations. cbn. rewrite length_app. cbn.
           split; [lia|]. split; [lia|]. right. exists response.
           fold (invocations s). rewrite Hans. repeat split. exact Hout.
      * cbn [rate_limit_error] in Hrl. unfold handled. cbn [str_exn].
        rewrite Hrl. cbn. intros [= <-]. exists (invocations s).
        unfold invocations. cbn. rewrite length_app. cbn.
        split; [lia|]. split; [lia|]. left. exists text.
        fold (invocations s). rewrite Hans. repeat split. exact Hrl.
Qed.

(** The sleeps of the loop are the back-offs of its first indices. *)
Lemma retry_loop_sleeps (q key : string) (atts : list Z) :
  forall s,
    Forall (fun a => 0 <= a) atts ->
    exists j, (j <= length atts)%nat
      /\ sleeps (world (fst (retry_loop E q key atts s)))
         = sleeps (world s) ++ map (backoff E) (firstn j atts).
Proof.
  induction atts as [|a atts IH]; intros s Hpos.
  - exists 0%nat. cbn. rewrite app_nil_r. split; [lia|reflexivity].
  - apply Forall_cons_1 in Hpos. destruct Hpos as [Ha Hpos].
    destruct (rate_limit_error (answer s (invocations s) q)) eqn:Hrl.
    + rewrite (retry_loop_backs_off E q key a atts s Ha Hrl).
      destruct (IH (backed_off E q a s) Hpos) as (j & Hj & Hsl).
      exists (S j). split; [cbn; lia|]. rewrite Hsl. cbn.
      rewrite <- app_assoc. reflexivity.
    + exists 0%nat. split; [lia|]. cbn [retry_loop firstn map]. unfold bind.
      rewrite (attempt_once_unfold E q key a s Ha), app_nil_r. cbv zeta.
      destruct (answer s (invocations s) q) as [response|text] eqn:Hans.
      * destruct (response !! "output"); reflexivity.
      * cbn [rate_limit_error] in Hrl. unfold handled. cbn [str_exn].
        rewrite Hrl. reflexivity.
Qed.

(** The invocations of the loop: what is asked, when, and how far
    apart. *)
Lemma retry_loop_calls (q key : string) (atts : list Z) :
  forall s,
    Forall (fun a => 0 <= a) atts ->
    exists new,
      calls (world (fst (retry_loop E q key atts s))) = calls (world s) ++ new
      /\ (length new <= length atts)%nat
      /\ Forall (fun c => snd c = prompt_of q /\ clock (world s) <= fst c) new
      /\ spaced_by E atts (map fst new).
Proof.
  induction atts as [|a atts IH]; intros s Hpos.
  - exists []. cbn. rewrite app_nil_r. repeat split; [lia|constructor].
  - apply Forall_cons_1 in Hpos. destruct Hpos as [Ha Hpos].
    pose proof (invoked_clock E (prompt_of q) (world s)) as Hinv.
    destruct (rate_limit_error (answer s (invocations s) q)) eqn:Hrl.
    + rewrite (retry_loop_backs_off E q key a atts s Ha Hrl).
      destruct (IH (backed_off E q a s) Hpos) as (new & Hcalls & Hlen & Hall & Hsp).
      pose proof (slept_clock E (backoff E a) (invoked E (prompt_of q) (world s)))
        as Hsl.
      exists ((clock (invoked E (prompt_of q) (world s)), prompt_of q) :: new).
      split; [|split; [|split]].
      * rewrite Hcalls. cbn. rewrite <- app_assoc. reflexivity.
      * cbn. lia.
      * constructor; [split; [reflexivity|exact Hinv]|].
        eapply List.Forall_impl; [|exact Hall]. cbv beta.
        intros c [Hp Ht]. split; [exact Hp|].
        pose proof (backoff_pos E a Ha). cbn [backed_off set_world world] in Ht. lia.
      * cbn [map fst spaced_by]. destruct new as [|c new]; [exact I|].
        cbn [map]. split; [|exact Hsp].
        apply Forall_cons_1 in Hall. destruct Hall as [[_ Ht] _].
        cbn [backed_off set_world world] in Ht. lia.
    + exists [(clock (invoked E (prompt_of q) (world s)), prompt_of q)].
      cbn [retry_loop]. unfold bind.
      rewrite (attempt_once_unfold E q key a s Ha). cbv zeta.
      assert (Hone : Forall (fun c => snd c = prompt_of q /\ clock (world s) <= fst c)
                       [(clock (invoked E (prompt_of q) (world s)), prompt_of q)]).
      { repeat constructor. exact Hinv. }
      destruct (answer s (invocations s) q) as [response|text] eqn:Hans.
      * destruct (response !! "output");
          (split; [reflexivity|]; split; [cbn; lia|]; split; [exact Hone|exact I]).
      * cbn [rate_limit_error] in Hrl. unfold handled. cbn [str_exn].
        rewrite Hrl.
        split; [reflexivity|]. split; [cbn; lia|]. split; [exact Hone|exact I].
Qed.

End LoopTraces.

(** ** More about [search_properties] *)

Section SearchMore.

Context {DataFrame ChatGroq : Type}.
Variable E : Env.
Implicit Types s : @Machine DataFrame ChatGroq.

(** X4.  For a query that [str.encode] accepts (a string of the
    model is the UTF-8 encoding of one) and an agent whose failures
    are [Exception]s: an exception that leaves [search_properties]
    is the error of the last agent invocation of the call, one that
    is not classified as a rate limit, or the [KeyError] for a
    response of that invocation without the key ["output"].  The
    throttle's [self._request_times[0]] and the [time.sleep] calls
    of the call do not fail. *)
Theorem search_raises_only_agent_failures
    (q : string) (max_retries : Z) (e : exn) s :
  snd (search_properties E q max_retries s) = Raise e ->
  exists m,
    invocations (fst (search_properties E q max_retries s)) = S m
    /\ (invocations s <= m)%nat
    /\ ((exists text, answer s m q = Raises text /\ e = AgentError text
                      /\ rate_limited (Str.lower text) = false)
        \/ (exists response, answer s m q = Returns response
              /\ response !! "output" = None /\ e = KeyError "output")).
Proof.
  destruct (_cache (self s) !! cache_key q) as [v|] eqn:Hlook.
  - rewrite (search_hit E q max_retries v s Hlook). cbn. discriminate.
  - rewrite (search_miss E q max_retries s Hlook). intros Hraise.
    destruct (retry_loop_raises E q (cache_key q) (range max_retries)
                (fst (_rate_limit E 10 s)) e (range_nonneg max_retries) Hraise)
      as (m & Hm & Hle & Hwhy).
    rewrite rate_limit_invocations in Hle.
    rewrite (rate_limit_answer E 10 s) in Hwhy.
    exists m. split; [exact Hm|]. split; [exact Hle|exact Hwhy].
Qed.

Lemma retry_loop_missing_output
    (q key : string) (response : gmap string string) (a : Z) (atts : list Z) s :
  0 <= a ->
  answer s (invocations s) q = Returns response ->
  response !! "output" = None ->
  retry_loop E q key (a :: atts) s
  = (set_world (invoked E (prompt_of q) (world s)) s, Raise (KeyError "output")).
Proof.
  intros Ha Hans Hnone. cbn [retry_loop]. unfold bind.
  rewrite (attempt_once_unfold E q key a s Ha), Hans. cbv zeta.
  rewrite Hnone. reflexivity.
Qed.

(** X5.  On a cache miss, if after [j] rate-limited attempts the agent
    returns a response that has no key ["output"], the call raises
    [KeyError('output')] at once: that invocation is the last, no
    sleep follows it, and nothing is cached. *)
Theorem search_missing_output_raises
    (q : string) (response : gmap string string) (max_retries : Z) (j : nat) s :
  _cache (self s) !! cache_key q = None ->
  Z.of_nat j < max_retries ->
  (forall i, (i < j)%nat ->
     rate_limit_error (answer s (invocations s + i) q) = true) ->
  answer s (invocations s + j) q = Returns response ->
  response !! "output" = None ->
  let s' := fst (search_properties E q max_retries s) in
  snd (search_properties E q max_retries s) = Raise (KeyError "output")
  /\ invocations s' = (invocations s + j + 1)%nat
  /\ sleeps (world s')
     = sleeps (world (fst (_rate_limit E 10 s)))
       ++ map (backoff E) (range (Z.of_nat j))
  /\ _cache (self s') = _cache (self s).
Proof.
  intros Hmiss Hj Hfail Hans Hnone. cbv zeta.
  rewrite (search_miss E q max_retries s Hmiss).
  set (s1 := fst (_rate_limit E 10 s)).
  assert (Hn1 : invocations s1 = invocations s)
    by apply rate_limit_invocations.
  assert (Ha1 : forall n, answer s1 n q = answer s n q)
    by (intros n; apply rate_limit_answer).
  destruct (retry_loop_after_failures E q (cache_key q) j
              (range max_retries) s1) as (s_r & Heq & Hself & Hn & Hsl & _).
  - apply range_nonneg.
  - rewrite range_length. lia.
  - intros i Hi. rewrite Hn1, Ha1. apply Hfail, Hi.
  - destruct (skipn_cons_nonneg j (range max_retries)) as (a & rest & Hsk & Ha).
    + apply range_nonneg.
    + rewrite range_length. lia.
    + rewrite Heq, Hsk.
      rewrite (retry_loop_missing_output q (cache_key q) response a rest s_r Ha).
      * cbn. repeat split.
        -- unfold invocations in *. cbn. rewrite length_app. cbn. lia.
        -- rewrite Hsl, firstn_range by lia. reflexivity.
        -- rewrite Hself. subst s1.
           destruct (rate_limit_frame E 10 s) as (_ & _ & _ & Hc & _).
           exact Hc.
      * rewrite (answer_same_self s_r s1 _ q Hself), Hn, Hn1, Ha1.
        exact Hans.
      * exact Hnone.
Qed.

(** X6.  With [max_retries <= 0] a call that misses the cache never
    invokes the agent: it returns the could-not-complete message and
    caches nothing, but it has gone through the throttle, which
    logged a time stamp for it. *)
Theorem search_without_attempts (q : string) (max_retries : Z) s :
  _cache (self s) !! cache_key q = None ->
  max_retries <= 0 ->
  search_properties E q max_retries s
  = (fst (_rate_limit E 10 s), Ok could_not_complete)
  /\ invocations (fst (_rate_limit E 10 s)) = invocations s
  /\ _cache (self (fst (_rate_limit E 10 s))) = _cache (self s)
  /\ exists t,
       _request_times (self (fst (_rate_limit E 10 s)))
       = prune E (clock (elapse E (world s))) (_request_times (self s)) ++ [t].
Proof.
  intros Hmiss Hn. rewrite (search_miss E q max_retries s Hmiss).
  assert (Hr : range max_retries = []).
  { unfold range. replace (Z.to_nat max_retries) with 0%nat by lia. reflexivity. }
  rewrite Hr. cbn [retry_loop]. unfold ret.
  split; [reflexivity|]. split; [apply rate_limit_invocations|].
  destruct (rate_limit_frame E 10 s) as (_ & _ & _ & Hc & _).
  split; [exact Hc|].
  destruct (rate_limit_appends E 10 s ltac:(lia)) as (t & Ht & _).
  exists t. exact Ht.
Qed.

(** X3.  The cache only grows: whatever calls are made, an entry once
    stored stays, with the value it was stored with. *)
Theorem cache_never_shrinks (cs : list call) s :
  _cache (self s) ⊆ _cache (self (run E cs s)).
Proof.
  revert s. induction cs as [|c cs IH]; intros s; [reflexivity|].
  cbn [run fold_left]. etransitivity; [|apply IH].
  destruct c as [max_rpm|q n]; cbn [do_call].
  - destruct (rate_limit_frame E max_rpm s) as (_ & _ & _ & -> & _).
    reflexivity.
  - destruct (_cache (self s) !! cache_key q) as [v|] eqn:Hlook.
    + rewrite (search_hit E q n v s Hlook). reflexivity.
    + destruct (search_miss_effect E q n s Hlook)
        as (_ & _ & _ & [(Hc & _)|(v & m & _ & _ & _ & _ & Hc)]);
        cbv zeta in Hc; rewrite Hc.
      * reflexivity.
      * apply insert_subseteq. exact Hlook.
Qed.

End SearchMore.

(** ** More about the throttle and the time a call takes *)

Section ThrottleMore.

Context {DataFrame ChatGroq : Type}.
Variable E : Env.
Implicit Types s : @Machine DataFrame ChatGroq.

(** X7.  With a budget [max_rpm <= 0] the test of line 57 always
    holds: when nothing of the log is left after pruning,
    [self._request_times[0]] raises [IndexError], the log stays
    empty and nothing is slept; otherwise the call sleeps, whatever
    the log holds, and then appends its time stamp. *)
Theorem rate_limit_without_budget (max_rpm : Z) s :
  max_rpm <= 0 ->
  let now := clock (elapse E (world s)) in
  let kept := prune E now (_request_times (self s)) in
  let s' := fst (_rate_limit E max_rpm s) in
  (kept = [] ->
     snd (_rate_limit E max_rpm s) = Raise (IndexError "list index out of range")
     /\ _request_times (self s') = []
     /\ sleeps (world s') = sleeps (world s))
  /\ (forall t0 rest, kept = t0 :: rest ->
        snd (_rate_limit E max_rpm s) = Ok tt
        /\ sleeps (world s') = sleeps (world s) ++ [window E - (now - t0)]
        /\ exists t, _request_times (self s') = kept ++ [t]).
Proof.
  intros Hk. cbv zeta. rewrite (rate_limit_unfold E max_rpm s). cbv zeta.
  assert (Hfull : forall l : list Z, (Z.of_nat (length l) >=? max_rpm) = true).
  { intros l. apply Z.geb_le. lia. }
  rewrite Hfull. split.
  - intros ->. repeat split.
  - intros t0 rest ->. split; [reflexivity|]. split; [reflexivity|].
    eexists. reflexivity.
Qed.

(** In a state whose log is in order [_rate_limit] sleeps at most
    once, and for no more than sixty seconds. *)
Lemma rate_limit_wait_bound (max_rpm : Z) s :
  log_ok s ->
  let s' := fst (_rate_limit E max_rpm s) in
  sleeps (world s') = sleeps (world s)
  \/ exists wait, 0 < wait <= window E
       /\ sleeps (world s') = sleeps (world s) ++ [wait].
Proof.
  intros [_ Hpast]. cbv zeta. rewrite (rate_limit_unfold E max_rpm s). cbv zeta.
  destruct (Z.of_nat (length (prune E (clock (elapse E (world s)))
                                (_request_times (self s)))) >=? max_rpm);
    [|left; reflexivity].
  destruct (prune E (clock (elapse E (world s))) (_request_times (self s)))
    as [|t0 rest] eqn:Hkept; [left; reflexivity|].
  right. exists (window E - (clock (elapse E (world s)) - t0)).
  split; [|reflexivity].
  pose proof (prune_head_wait E _ t0 _ rest Hkept) as Hwait.
  assert (Hin : In t0 (prune E (clock (elapse E (world s)))
                         (_request_times (self s))))
    by (rewrite Hkept; left; reflexivity).
  apply prune_In in Hin. destruct Hin as [Hin _].
  rewrite List.Forall_forall in Hpast. specialize (Hpast t0 Hin).
  pose proof (elapse_clock E (world s)). lia.
Qed.

(** X8.  In every state that a session started on a new object
    reaches, a call of [_rate_limit], whatever its budget, sleeps at
    most once, and for no more than sixty seconds. *)
Theorem throttle_waits_at_most_a_minute
    (df0 : DataFrame) (llm0 : ChatGroq) (agent0 : nat -> string -> outcome)
    (w0 : World) (cs : list call) (max_rpm : Z) :
  let s := run E cs {| self := __init__ df0 llm0 agent0; world := w0 |} in
  let s' := fst (_rate_limit E max_rpm s) in
  sleeps (world s') = sleeps (world s)
  \/ exists wait, 0 < wait <= window E
       /\ sleeps (world s') = sleeps (world s) ++ [wait].
Proof.
  cbv zeta. apply rate_limit_wait_bound.
  apply (run_log_ok E cs {| self := __init__ df0 llm0 agent0; world := w0 |}).
  split; constructor.
Qed.

Lemma total_time_app (l1 l2 : list Z) :
  total_time (l1 ++ l2) = total_time l1 + total_time l2.
Proof.
  unfold total_time. induction l1 as [|x l1 IH]; [reflexivity|].
  rewrite <- app_comm_cons. cbn [fold_right]. lia.
Qed.

Lemma firstn_range_nat (j : nat) (n : Z) :
  (j <= Z.to_nat n)%nat -> firstn j (range n) = range (Z.of_nat j).
Proof.
  intros Hle. unfold range. rewrite List.firstn_map. f_equal.
  rewrite Nat2Z.id. change (@firstn nat) with (@take nat).
  rewrite take_seq. f_equal. lia.
Qed.

Lemma range_succ (n : nat) :
  range (Z.of_nat (S n)) = range (Z.of_nat n) ++ [Z.of_nat n].
Proof.
  unfold range. rewrite !Nat2Z.id, seq_S, map_app. reflexivity.
Qed.

(** [40 + 80 + ... + 40 j] seconds. *)
Lemma total_time_backoff (j : nat) :
  total_time (map (backoff E) (range (Z.of_nat j)))
  = seconds E (20 * Z.of_nat j * (Z.of_nat j + 1)).
Proof.
  induction j as [|j IH]; [reflexivity|].
  rewrite range_succ, map_app, total_time_app, IH. cbn [map total_time fold_right].
  unfold backoff, seconds. lia.
Qed.

(** What a call of [search_properties] sleeps, in a state whose log
    is in order. *)
Lemma search_sleeps_total (q : string) (max_retries : Z) s :
  log_ok s ->
  let n := Z.max 0 max_retries in
  exists added,
    sleeps (world (fst (search_properties E q max_retries s)))
    = sleeps (world s) ++ added
    /\ Forall (fun d => 0 < d) added
    /\ total_time added <= window E + seconds E (20 * n * (n + 1)).
Proof.
  intros Hok. cbv zeta.
  pose proof (window_pos E) as Hw.
  assert (Hsec : forall j : nat, Z.of_nat j <= Z.max 0 max_retries ->
            seconds E (20 * Z.of_nat j * (Z.of_nat j + 1))
            <= seconds E (20 * Z.max 0 max_retries * (Z.max 0 max_retries + 1))).
  { intros j Hj. unfold seconds. apply Z.mul_le_mono_nonneg_r; [lia|]. nia. }
  destruct (_cache (self s) !! cache_key q) as [v|] eqn:Hlook.
  - rewrite (search_hit E q max_retries v s Hlook). exists []. cbn [fst].
    rewrite app_nil_r. split; [reflexivity|]. split; [constructor|].
    specialize (Hsec 0%nat ltac:(lia)). cbn [total_time fold_right].
    unfold seconds in *. lia.
  - rewrite (search_miss E q max_retries s Hlook).
    destruct (retry_loop_sleeps E q (cache_key q) (range max_retries)
                (fst (_rate_limit E 10 s)) (range_nonneg max_retries))
      as (j & Hj & Hsl).
    rewrite range_length in Hj. rewrite firstn_range_nat in Hsl by exact Hj.
    assert (Hpos : Forall (fun d => 0 < d) (map (backoff E) (range (Z.of_nat j)))).
    { apply List.Forall_forall. intros d Hd. apply in_map_iff in Hd.
      destruct Hd as (a & <- & Ha). apply backoff_pos.
      pose proof (range_nonneg (Z.of_nat j)) as Hr.
      rewrite List.Forall_forall in Hr. apply Hr, Ha. }
    specialize (Hsec j ltac:(lia)).
    destruct (rate_limit_wait_bound 10 s Hok) as [Hnone|(w & Hwait & Hone)];
      cbv zeta in *.
    + exists (map (backoff E) (range (Z.of_nat j))).
      rewrite Hsl, Hnone. split; [reflexivity|]. split; [exact Hpos|].
      rewrite total_time_backoff. lia.
    + exists (w :: map (backoff E) (range (Z.of_nat j))).
      rewrite Hsl, Hone, <- app_assoc. split; [reflexivity|].
      split; [constructor; [lia|exact Hpos]|].
      cbn [total_time fold_right]. fold (total_time (map (backoff E) (range (Z.of_nat j)))).
      rewrite total_time_backoff. lia.
Qed.



End ThrottleMore.

(** ** The trace of invocations and the size of the log *)

Section Traces.

Context {DataFrame ChatGroq : Type}.
Variable E : Env.
Implicit Types s : @Machine DataFrame ChatGroq.

(** What [search_properties] adds to the trace of invocations. *)
Lemma search_calls (q : string) (max_retries : Z) s :
  exists new,
    calls (world (fst (search_properties E q max_retries s)))
    = calls (world s) ++ new
    /\ (length new <= Z.to_nat max_retries)%nat
    /\ Forall (fun c => snd c = prompt_of q /\ clock (world s) <= fst c) new
    /\ spaced_by E (range max_retries) (map fst new).
Proof.
  destruct (_cache (self s) !! cache_key q) as [v|] eqn:Hlook.
  - rewrite (search_hit E q max_retries v s Hlook). exists []. cbn.
    rewrite app_nil_r. repeat split; [lia|constructor|].
    destruct (range max_retries); exact I.
  - rewrite (search_miss E q max_retries s Hlook).
    destruct (retry_loop_calls E q (cache_key q) (range max_retries)
                (fst (_rate_limit E 10 s)) (range_nonneg max_retries))
      as (new & Hcalls & Hlen & Hall & Hsp).
    destruct (rate_limit_frame E 10 s) as (_ & _ & _ & _ & Hc & Hck).
    rewrite range_length in Hlen. rewrite Hc in Hcalls.
    exists new. split; [exact Hcalls|]. split; [exact Hlen|].
    split; [|exact Hsp].
    eapply List.Forall_impl; [|exact Hall]. cbv beta.
    intros c [Hp Ht]. split; [exact Hp|lia].
Qed.

(** X10.  A call of [search_properties] only adds to the trace of
    agent invocations, at most [max_retries] entries, and each of
    them asks the fixed preamble followed by the query as the user
    typed it (not its normalized form), at a time not before the
    call. *)
Theorem search_asks_the_raw_query (q : string) (max_retries : Z) s :
  exists new,
    calls (world (fst (search_properties E q max_retries s)))
    = calls (world s) ++ new
    /\ (length new <= Z.to_nat max_retries)%nat
    /\ Forall (fun c =>
                 snd c = (system_prompt ++ newline ++ newline
                          ++ "User Request: " ++ q)%string
                 /\ clock (world s) <= fst c) new.
Proof.
  destruct (search_calls q max_retries s) as (new & Hcalls & Hlen & Hall & _).
  exists new. split; [exact Hcalls|]. split; [exact Hlen|exact Hall].
Qed.

Lemma spaced_by_lookup (n : nat) :
  forall (a : nat) (times : list Z) (i : nat) (t1 t2 : Z),
    spaced_by E (map Z.of_nat (seq a n)) times ->
    (length times <= n)%nat ->
    times !! i = Some t1 -> times !! S i = Some t2 ->
    t1 + backoff E (Z.of_nat (a + i)) <= t2.
Proof.
  induction n as [|n IH]; intros a times i t1 t2 Hsp Hlen H1 H2.
  - destruct times; [discriminate|cbn in Hlen; lia].
  - destruct times as [|u1 [|u2 times]]; try discriminate.
    cbn [seq map spaced_by] in Hsp. destruct Hsp as [Hfirst Hrest].
    destruct i as [|i].
    + simplify_eq/=. rewrite Nat.add_0_r. exact Hfirst.
    + replace (a + S i)%nat with (S a + i)%nat by lia.
      apply (IH (S a) (u2 :: times) i t1 t2 Hrest); [cbn in *; lia| |].
      * exact H1.
      * exact H2.
Qed.

(** X12.  Within one call of [search_properties] the agent
    invocations are spaced by the back-off: the one made at loop
    index [i + 1] is issued at least [(i + 1) * 40] seconds after the
    one made at index [i]. *)
Theorem search_retries_are_spaced
    (q : string) (max_retries : Z) (i : nat) (t1 t2 : Z) s :
  let before := length (calls (world s)) in
  let times :=
    map fst (calls (world (fst (search_properties E q max_retries s)))) in
  times !! (before + i)%nat = Some t1 ->
  times !! (before + S i)%nat = Some t2 ->
  t1 + seconds E ((Z.of_nat i + 1) * 40) <= t2.
Proof.
  cbv zeta. destruct (search_calls q max_retries s) as (new & -> & Hlen & _ & Hsp).
  rewrite map_app.
  rewrite !lookup_app_r by (rewrite length_map; lia).
  rewrite !length_map.
  replace (length (calls (world s)) + i - length (calls (world s)))%nat
    with i by lia.
  replace (length (calls (world s)) + S i - length (calls (world s)))%nat
    with (S i) by lia.
  intros H1 H2.
  apply (spaced_by_lookup (Z.to_nat max_retries) 0 (map fst new) i t1 t2 Hsp);
    [rewrite length_map; exact Hlen|exact H1|exact H2].
Qed.

(** The log of a session under one budget never outgrows it by more
    than the entry just appended. *)
Lemma run_log_length (k : Z) (cs : list call) :
  0 < k -> Forall (uses k) cs ->
  forall (H : list Z) s,
    tracked E k H s ->
    Z.of_nat (length (_request_times (self s))) <= k + 1 ->
    Z.of_nat (length (_request_times (self (run E cs s)))) <= k + 1.
Proof.
  intros Hk. induction 1 as [|c cs Hc Hcs IH]; intros H s Htr Hlen.
  - exact Hlen.
  - cbn [run fold_left].
    apply (IH (H ++ stamped E c s)); [apply do_call_tracked; assumption|].
    destruct (stamped_appended E k c s Hk Hc) as [[_ ->]|(t & _ & ->)];
      [exact Hlen|].
    rewrite length_app. cbn [length].
    pose proof (tracked_budget E k H s Htr (clock (elapse E (world s)))
                  (elapse_clock E (world s))). lia.
Qed.

(** X11.  With a clock that does not run backwards, in a session of
    calls under one budget [k >= 1] on a new object (searches use
    10) the request log never holds more than [k + 1] time stamps:
    pruning keeps it from growing with the length of the session. *)
Theorem request_log_stays_short
    (k : Z) (cs : list call)
    (df0 : DataFrame) (llm0 : ChatGroq) (agent0 : nat -> string -> outcome)
    (w0 : World) :
  0 < k -> Forall (uses k) cs ->
  Z.of_nat (length (_request_times
     (self (run E cs {| self := __init__ df0 llm0 agent0; world := w0 |}))))
  <= k + 1.
Proof.
  intros Hk Hcs. apply (run_log_length k cs Hk Hcs []).
  - repeat split; [constructor|]. intros T. cbn. lia.
  - cbn. lia.
Qed.

End Traces.

(** ** The chat front end *)

Section AppProperties.

Context {DataFrame ChatGroq : Type}.
Variable E : Env.
Variable df0 : DataFrame.
Variable llm0 : ChatGroq.
Variable agent0 : nat -> string -> outcome.

Abbreviation app := (run_streamlit_app E df0 llm0 agent0).
Abbreviation sessions := (reruns E df0 llm0 agent0).
Abbreviation current := (initialised df0 llm0 agent0).
Abbreviation machine := (machine_of df0 llm0 agent0).

Implicit Types b : @Browser DataFrame ChatGroq.

Lemma bubbles_app (p1 p2 : list element) :
  bubbles (p1 ++ p2) = bubbles p1 ++ bubbles p2.
Proof.
  induction p1 as [|e p1 IH]; [reflexivity|].
  rewrite <- app_comm_cons. destruct e; cbn [bubbles]; rewrite IH; reflexivity.
Qed.

Lemma bubbles_history (ms : list message) :
  bubbles (history ms) = map (fun m => (role m, [content m])) ms.
Proof.
  induction ms as [|m ms IH]; [reflexivity|].
  cbn. unfold history in IH. rewrite IH. reflexivity.
Qed.

Lemma bubbles_frame (ms : list message) (rest : list element) :
  bubbles ((header ++ history ms ++ [chat_input]) ++ rest)
  = map (fun m => (role m, [content m])) ms ++ bubbles rest.
Proof.
  rewrite !bubbles_app, bubbles_history.
  change (bubbles header) with (@nil (string * list string)).
  change (bubbles [chat_input]) with (@nil (string * list string)).
  rewrite app_nil_r. reflexivity.
Qed.

(** What a run leaves of the matcher and the world. *)
Lemma app_machine (submitted : option string) b :
  machine (fst (fst (app submitted b)))
  = match submitted_prompt submitted with
    | None => machine b
    | Some prompt => fst (search_properties E prompt 3 (machine b))
    end.
Proof.
  unfold run_streamlit_app, machine_of.
  destruct (submitted_prompt submitted) as [prompt|]; [|reflexivity].
  destruct (search_properties E prompt 3
              {| self := matcher (current b); world := outside b |})
    as [[o w] [response|e]]; reflexivity.
Qed.

(** What a run adds to the transcript. *)
Lemma app_messages (submitted : option string) b :
  messages (current (fst (fst (app submitted b))))
  = messages (current b)
    ++ match submitted_prompt submitted with
       | None => []
       | Some prompt =>
           exchange (prompt,
                     match snd (search_properties E prompt 3 (machine b)) with
                     | Ok response => Some response
                     | Raise _ => None
                     end)
       end.
Proof.
  unfold run_streamlit_app, machine_of.
  destruct (submitted_prompt submitted) as [prompt|];
    [|cbn; rewrite app_nil_r; reflexivity].
  destruct (search_properties E prompt 3
              {| self := matcher (current b); world := outside b |})
    as [s' [response|e]]; cbn; [rewrite <- app_assoc|]; reflexivity.
Qed.

(** X13.  After any run of the script the chat messages written to
    the page are, in order, one for each entry of the transcript it
    leaves in the session state, with the role of the entry as name
    and its content as the one text passed to [st.markdown];
    and, only when [search_properties] raised, one more: the
    assistant's block, left empty. *)
Theorem page_shows_the_transcript (submitted : option string) b :
  bubbles (snd (fst (app submitted b)))
  = map (fun m => (role m, [content m]))
      (messages (current (fst (fst (app submitted b)))))
    ++ match snd (app submitted b) with
       | Ok _ => []
       | Raise _ => [("assistant"%string, [])]
       end.
Proof.
  rewrite app_messages. unfold run_streamlit_app, machine_of.
  destruct (submitted_prompt submitted) as [prompt|].
  - destruct (search_properties E prompt 3
                {| self := matcher (current b); world := outside b |})
      as [s' [response|e]]; cbn [fst snd];
      rewrite <- app_assoc, bubbles_frame, map_app; cbn [exchange fst snd map];
      rewrite <- ?app_assoc; reflexivity.
  - cbn [fst snd]. rewrite <- (app_nil_r (header ++ _)), bubbles_frame.
    rewrite !app_nil_r. reflexivity.
Qed.

Lemma prompts_cons (i : option string) (inputs : list (option string)) :
  prompts (i :: inputs)
  = match submitted_prompt i with
    | Some prompt => prompt :: prompts inputs
    | None => prompts inputs
    end.
Proof. reflexivity. Qed.

Lemma sessions_machine (inputs : list (option string)) :
  forall b,
    machine (sessions inputs b)
    = run E (Demo.searches (prompts inputs)) (machine b).
Proof.
  induction inputs as [|i inputs IH]; intros b; [reflexivity|].
  cbn [reruns fold_left]. fold (sessions inputs (fst (fst (app i b)))).
  rewrite IH, app_machine, prompts_cons.
  destruct (submitted_prompt i) as [prompt|]; reflexivity.
Qed.

Lemma sessions_messages (inputs : list (option string)) :
  forall b,
    messages (current (sessions inputs b))
    = messages (current b) ++ transcript_of E (prompts inputs) (machine b).
Proof.
  induction inputs as [|i inputs IH]; intros b.
  - cbn. rewrite app_nil_r. reflexivity.
  - cbn [reruns fold_left]. fold (sessions inputs (fst (fst (app i b)))).
    rewrite IH, app_messages, app_machine, prompts_cons.
    destruct (submitted_prompt i) as [prompt|].
    + cbn [transcript_of]. rewrite <- app_assoc. reflexivity.
    + rewrite app_nil_r. reflexivity.
Qed.

(** X14.  A series of runs of the script is, for the matcher, the
    series of [search_properties] calls of the prompts that were
    submitted (empty submissions left out), each with three retries,
    in that order on one object made in the first run; and the
    transcript it builds from the empty session state is, prompt by
    prompt in that order, the user's message with the prompt followed
    by the assistant's message with what that call of
    [search_properties] returned, or by nothing when that call
    raised. *)
Theorem session_is_a_series_of_searches
    (inputs : list (option string)) (w0 : World) :
  let b0 := {| session_state := None; outside := w0 |} in
  let s0 := {| self := __init__ df0 llm0 agent0; world := w0 |} in
  machine (sessions inputs b0)
  = run E (map (fun q => Search q 3) (prompts inputs)) s0
  /\ messages (current (sessions inputs b0))
     = transcript_of E (prompts inputs) s0.
Proof.
  cbv zeta. split.
  - apply sessions_machine.
  - rewrite sessions_messages. reflexivity.
Qed.

(** X15.  When a prompt has been answered and cached, submitting it
    again, or any prompt of the same normalized form, shows the same
    answer again without invoking the agent and without any time
    stamp or sleep: the world and the matcher stay as they are. *)
Theorem repeated_prompt_served_from_cache (p p' : string) b :
  submitted_prompt (Some p) = Some p ->
  submitted_prompt (Some p') = Some p' ->
  normalize p' = normalize p ->
  let b1 := fst (fst (app (Some p) b)) in
  let b2 := fst (fst (app (Some p') b1)) in
  is_Some (_cache (matcher (current b1)) !! cache_key p) ->
  exists v,
    messages (current b2)
    = messages (current b)
      ++ [{| role := "user"; content := p |};
          {| role := "assistant"; content := v |};
          {| role := "user"; content := p' |};
          {| role := "assistant"; content := v |}]
    /\ machine b2 = machine b1
    /\ snd (app (Some p') b1) = Ok tt.
Proof.
  intros Hp Hp' Hnorm. cbv zeta. intros [v Hv].
  pose proof (app_machine (Some p) b) as Hm1. rewrite Hp in Hm1.
  assert (Hres : snd (search_properties E p 3 (machine b)) = Ok v).
  { apply search_returns_cached. rewrite <- Hm1. exact Hv. }
  assert (Hhit : search_properties E p' 3 (machine (fst (fst (app (Some p) b))))
                 = (machine (fst (fst (app (Some p) b))), Ok v)).
  { apply search_hit. rewrite (cache_key_normalize p p' Hnorm). exact Hv. }
  exists v. split; [|split].
  - rewrite !app_messages, Hp, Hp', Hres, Hhit. cbn [snd exchange fst].
    rewrite <- app_assoc. reflexivity.
  - rewrite (app_machine (Some p')), Hp', Hhit. reflexivity.
  - unfold run_streamlit_app at 1. rewrite Hp'.
    fold (machine (fst (fst (app (Some p) b)))). rewrite Hhit. reflexivity.
Qed.

(** X16.  With a clock that does not run backwards, in any session
    that starts with an empty session state, one run of the script
    invokes the agent at most three times and sleeps, the throttle's
    wait and the back-offs together, for at most 300 seconds. *)
Theorem one_run_is_bounded
    (inputs : list (option string)) (submitted : option string) (w0 : World) :
  let b := sessions inputs {| session_state := None; outside := w0 |} in
  let b' := fst (fst (app submitted b)) in
  (length (calls (outside b')) <= length (calls (outside b)) + 3)%nat
  /\ exists added,
       sleeps (outside b') = sleeps (outside b) ++ added
       /\ total_time added <= seconds E 300.
Proof.
  cbv zeta.
  set (b := sessions inputs {| session_state := None; outside := w0 |}).
  assert (Hok : log_ok (machine b)).
  { subst b. rewrite sessions_machine. apply run_log_ok. split; constructor. }
  change (outside (fst (fst (app submitted b))))
    with (world (machine (fst (fst (app submitted b))))).
  change (outside b) with (world (machine b)).
  rewrite app_machine.
  destruct (submitted_prompt submitted) as [prompt|].
  - split.
    + destruct (search_calls E prompt 3 (machine b)) as (new & -> & Hlen & _).
      rewrite length_app. change (Z.to_nat 3) with 3%nat in Hlen. lia.
    + destruct (search_sleeps_total E prompt 3 (machine b) Hok)
        as (added & Hsl & _ & Htot).
      exists added. split; [exact Hsl|].
      cbv zeta in Htot. unfold window, seconds in *. lia.
  - split; [lia|]. exists []. rewrite app_nil_r. split; [reflexivity|].
    unfold seconds. cbn. lia.
Qed.

End AppProperties.

(** ** Further concrete runs *)

Section MoreRuns.

Import Demo Cases.

Lemma cache_key_ignores_case_and_margins_witness :
  ascii_only shouted = true
  /\ cache_key (Str.lower shouted) = cache_key shouted.
Proof.
  assert (Hascii : ascii_only shouted = true) by reflexivity.
  split; [exact Hascii|].
  exact (proj1 (proj2 (proj2 (cache_key_ignores_case_and_margins shouted Hascii)))).
Defined.

Lemma rate_limit_by_substring_witness :
  In (Str.lower "RATE") indicators
  /\ rate_limited (Str.lower "Could not GENERATE a reply") = true.
Proof.
  assert (Hind : In (Str.lower "RATE") indicators)
    by (right; left; reflexivity).
  split; [exact Hind|].
  exact (proj2 (rate_limit_by_substring "Could not GENERATE a reply"
                  "Could not GENE" "RATE" " a reply") Hind eq_refl).
Defined.

Lemma search_raises_only_agent_failures_witness :
  snd (search_properties env villa 3 (start broken))
    = Raise (AgentError "Error code: 401 - Invalid API Key")
  /\ exists m,
       invocations (fst (search_properties env villa 3 (start broken))) = S m
       /\ (invocations (start broken) <= m)%nat
       /\ ((exists text,
              answer (start broken) m villa = Raises text
              /\ AgentError "Error code: 401 - Invalid API Key" = AgentError text
              /\ rate_limited (Str.lower text) = false)
           \/ (exists response,
                 answer (start broken) m villa = Returns response
                 /\ response !! "output" = None
                 /\ AgentError "Error code: 401 - Invalid API Key"
                    = KeyError "output")).
Proof.
  assert (Hres : snd (search_properties env villa 3 (start broken))
                 = Raise (AgentError "Error code: 401 - Invalid API Key"))
    by (vm_compute; reflexivity).
  split; [exact Hres|].
  exact (search_raises_only_agent_failures env villa 3 _ (start broken) Hres).
Defined.

Lemma search_missing_output_raises_witness :
  _cache (self (start mute)) !! cache_key villa = None
  /\ snd (search_properties env villa 3 (start mute)) = Raise (KeyError "output")
  /\ invocations (fst (search_properties env villa 3 (start mute))) = 1%nat.
Proof.
  assert (Hmiss : _cache (self (start mute)) !! cache_key villa = None)
    by (vm_compute; reflexivity).
  split; [exact Hmiss|].
  destruct (search_missing_output_raises env villa ∅ 3 0 (start mute))
    as (Hres & Hinv & _).
  - exact Hmiss.
  - lia.
  - intros i Hi. lia.
  - vm_compute. reflexivity.
  - vm_compute. reflexivity.
  - split; [exact Hres|exact Hinv].
Defined.

Lemma search_without_attempts_witness :
  _cache (self (start broken)) !! cache_key villa = None
  /\ 0 <= 0
  /\ search_properties env villa 0 (start broken)
     = (fst (_rate_limit env 10 (start broken)), Ok could_not_complete).
Proof.
  assert (Hmiss : _cache (self (start broken)) !! cache_key villa = None)
    by (vm_compute; reflexivity).
  assert (Hn : 0 <= 0) by lia.
  split; [exact Hmiss|]. split; [exact Hn|].
  exact (proj1 (search_without_attempts env villa 0 (start broken) Hmiss Hn)).
Defined.

Lemma rate_limit_without_budget_witness :
  0 <= 0
  /\ snd (_rate_limit env 0 (start broken))
     = Raise (IndexError "list index out of range").
Proof.
  assert (Hk : 0 <= 0) by lia.
  split; [exact Hk|].
  exact (proj1 (proj1 (rate_limit_without_budget env 0 (start broken) Hk)
                  eq_refl)).
Defined.

Lemma request_log_stays_short_witness :
  0 < 10 /\ Forall (uses 10) (searches ten_queries)
  /\ Z.of_nat (length (_request_times
       (self (run env (searches ten_queries) (start (flaky 9 1 "ok")))))) <= 10 + 1.
Proof.
  assert (Hk : 0 < 10) by lia.
  assert (Hcs : Forall (uses 10) (searches ten_queries))
    by (repeat constructor).
  split; [exact Hk|]. split; [exact Hcs|].
  exact (request_log_stays_short env 10 (searches ten_queries)
           tt tt (flaky 9 1 "ok")
           {| clock := 0; steps := 0; calls := []; sleeps := [] |} Hk Hcs).
Defined.

Lemma search_retries_are_spaced_witness :
  map fst (calls (world (fst (search_properties env villa 3
                                 (start (flaky 0 2 villa_answer))))))
    !! 0%nat = Some 0
  /\ map fst (calls (world (fst (search_properties env villa 3
                                    (start (flaky 0 2 villa_answer))))))
       !! 1%nat = Some 40
  /\ 0 + seconds env ((Z.of_nat 0 + 1) * 40) <= 40.
Proof.
  assert (H1 : map fst (calls (world (fst (search_properties env villa 3
                                            (start (flaky 0 2 villa_answer))))))
                 !! 0%nat = Some 0) by (vm_compute; reflexivity).
  assert (H2 : map fst (calls (world (fst (search_properties env villa 3
                                            (start (flaky 0 2 villa_answer))))))
                 !! 1%nat = Some 40) by (vm_compute; reflexivity).
  split; [exact H1|]. split; [exact H2|].
  exact (search_retries_are_spaced env villa 3 0 0 40
           (start (flaky 0 2 villa_answer)) H1 H2).
Defined.

Lemma repeated_prompt_served_from_cache_witness :
  let b1 := fst (fst (run_streamlit_app env tt tt helpful (Some villa)
                        fresh_browser)) in
  normalize shouted = normalize villa
  /\ is_Some (_cache (matcher (initialised tt tt helpful b1)) !! cache_key villa)
  /\ exists v,
       messages (initialised tt tt helpful
                   (fst (fst (run_streamlit_app env tt tt helpful (Some shouted) b1))))
       = messages (initialised tt tt helpful fresh_browser)
         ++ [{| role := "user"; content := villa |};
             {| role := "assistant"; content := v |};
             {| role := "user"; content := shouted |};
             {| role := "assistant"; content := v |}]
       /\ machine_of tt tt helpful
            (fst (fst (run_streamlit_app env tt tt helpful (Some shouted) b1)))
          = machine_of tt tt helpful b1
       /\ snd (run_streamlit_app env tt tt helpful (Some shouted) b1) = Ok tt.
Proof.
  assert (Hnorm : normalize shouted = normalize villa)
    by (vm_compute; reflexivity).
  assert (Hin : is_Some
            (_cache (matcher (initialised tt tt helpful
                       (fst (fst (run_streamlit_app env tt tt helpful (Some villa)
                                    fresh_browser)))))
               !! cache_key villa))
    by (exists villa_answer; vm_compute; reflexivity).
  cbv zeta. split; [exact Hnorm|]. split; [exact Hin|].
  exact (repeated_prompt_served_from_cache env tt tt helpful villa shouted
           fresh_browser eq_refl eq_refl Hnorm Hin).
Defined.

(** A session of three runs: a question, an idle run, the question
    again in capitals. *)
Example chat_session :
  let b := reruns env tt tt helpful [Some villa; None; Some shouted] fresh_browser in
  messages (initialised tt tt helpful b)
  = [{| role := "user"; content := villa |};
     {| role := "assistant"; content := villa_answer |};
     {| role := "user"; content := shouted |};
     {| role := "assistant"; content := villa_answer |}]
  /\ length (calls (outside b)) = 1%nat.
Proof. vm_compute. split; reflexivity. Qed.

End MoreRuns.

(** ** The request log on a wall clock *)

Section WallClockLog.

Context {DataFrame ChatGroq : Type}.
Variable E : Env.
Implicit Types s : @Machine DataFrame ChatGroq.

Lemma happen_log_ok (e : event) s :
  forward e -> log_ok s -> log_ok (happen E e s).
Proof.
  destruct e as [c|delta]; cbn [forward happen].
  - intros _. apply do_call_log_ok.
  - intros Hd [Hs Hp]. split; [exact Hs|].
    eapply List.Forall_impl; [|exact Hp]. cbn. intros t Ht. lia.
Qed.

Lemma run_events_log_ok (es : list event) :
  Forall forward es -> forall s, log_ok s -> log_ok (run_events E es s).
Proof.
  induction 1 as [|e es He Hes IH]; intros s Hok; [exact Hok|].
  cbn [run_events fold_left]. apply IH, happen_log_ok; assumption.
Qed.

(** C10, as amended.  Provided the clock that [time.time()] reads is
    never set back, the request log is always sorted in
    nondecreasing order: starting from the empty log of a new
    object, every [_rate_limit] call, and every [search_properties]
    call, keeps it so, whatever else happens to the clock between
    the calls. *)
Theorem request_log_sorted_on_forward_clock
    (df0 : DataFrame) (llm0 : ChatGroq) (agent0 : nat -> string -> outcome)
    (w0 : World) (es : list event) :
  Forall forward es ->
  Sorted Z.le
    (_request_times
       (self (run_events E es
                {| self := __init__ df0 llm0 agent0; world := w0 |}))).
Proof.
  intros Hes. apply StronglySorted_Sorted.
  apply (run_events_log_ok es Hes
           {| self := __init__ df0 llm0 agent0; world := w0 |}).
  split; constructor.
Qed.

End WallClockLog.

Section WallClockRuns.

Import Demo Cases.

(** C10, the statement refuted: after a first call at time 1000 the
    clock is set back by thirty seconds; the second call keeps the
    entry 1000, which is not sixty seconds old, and appends 970
    behind it. *)
Lemma clock_set_back_unsorts_log :
  ~ Sorted Z.le
      (_request_times
         (self (run_events env
                  [Call (RateLimit 10); ClockSet (-30); Call (RateLimit 10)]
                  (start_at_1000 broken)))).
Proof.
  vm_compute. intros Hs. inversion Hs as [|? ? _ Hhd]. subst.
  inversion Hhd as [|? ? Hle]. subst. apply Hle. reflexivity.
Qed.

Lemma request_log_sorted_on_forward_clock_witness :
  Forall forward [Call (RateLimit 10); ClockSet 30; Call (RateLimit 10)]
  /\ Sorted Z.le
       (_request_times
          (self (run_events env
                   [Call (RateLimit 10); ClockSet 30; Call (RateLimit 10)]
                   (start_at_1000 broken)))).
Proof.
  assert (Hes : Forall forward
                  [Call (RateLimit 10); ClockSet 30; Call (RateLimit 10)]).
  { repeat constructor. cbn. lia. }
  split; [exact Hes|].
  exact (request_log_sorted_on_forward_clock env tt tt broken
           {| clock := 1000; steps := 0; calls := []; sleeps := [] |} _ Hes).
Defined.

(** Calls more than a minute apart induce no wait, however many they
    are: two calls under a budget of one, eleven searches under the
    budget of ten. *)
Example spread_calls_induce_no_wait :
  sleeps (world (run slow [RateLimit 1; RateLimit 1] (start broken))) = []
  /\ sleeps (world (run slow (searches (ten_queries ++ ["q10"%string]))
                      (start helpful))) = [].
Proof. vm_compute. split; reflexivity. Qed.

End WallClockRuns.
